(** * Color-dle: the puzzle core, embedded and verified

    The development follows the three source units of the repository:
    - [colorUtils] (grid generation, position lookup, proximity),
    - [storageUtils] (the daily record kept in [localStorage]),
    - the [Colordle] component's click handler (the session state machine).

    Conventions of the embedding.
    - A JavaScript [number] that goes through fractional arithmetic (the
      HSL conversion, the distances of the nearest-colour scan) is an
      IEEE 754 binary64 value, [spec_float] with precision 53 and maximal
      exponent 1024, every operation rounding to nearest even exactly as
      the language prescribes.
    - A [number] that only ever holds an integer (indices, grid positions,
      RGB channels, counters) is a [Z].
    - A JavaScript string is a [string]; each character stands for one
      code unit in the range 0..255. *)

From Stdlib Require Import ZArith List String Ascii Bool Lia.
From Stdlib Require Import SpecFloat.
From stdpp Require Import base option list strings gmap.

Import ListNotations.
Local Open Scope string_scope.
Local Open Scope Z_scope.

(** ** JavaScript numbers *)

Module JsNumber.

Definition number := spec_float.

Definition prec : Z := 53.
Definition emax : Z := 1024.

(** An integer literal, or an integer-valued loop counter used in
    arithmetic. *)
Definition num (z : Z) : number := binary_normalize prec emax z 0 false.

Definition add : number -> number -> number := SFadd prec emax.
Definition sub : number -> number -> number := SFsub prec emax.
Definition mul : number -> number -> number := SFmul prec emax.
Definition div : number -> number -> number := SFdiv prec emax.
Definition ltb : number -> number -> bool := SFltb.
Definition leb : number -> number -> bool := SFleb.
Definition Math_abs : number -> number := SFabs.

(** A finite value as an integer mantissa at a chosen binary exponent:
    [mantissa_at e x * 2^e] is the value of [x] whenever [e] is at most
    the exponent of [x]. *)
Definition mantissa_at (e : Z) (x : number) : Z :=
  match x with
  | S754_finite s m ex => cond_Zopp s (Z.pos m) * 2 ^ (ex - e)
  | _ => 0
  end.

(** The [%] operator: the remainder has the sign of the dividend and is
    computed without rounding error (it is always representable). *)
Definition rem (x y : number) : number :=
  match x, y with
  | S754_nan, _ | _, S754_nan => S754_nan
  | S754_infinity _, _ => S754_nan
  | _, S754_zero _ => S754_nan
  | S754_zero s, _ => S754_zero s
  | S754_finite _ _ _, S754_infinity _ => x
  | S754_finite s _ ex, S754_finite _ _ ey =>
      let e := Z.min ex ey in
      binary_normalize prec emax
        (Z.rem (mantissa_at e x) (mantissa_at e y)) e s
  end.

(** The result of [Math.round]: an integral number, or one of the
    non-finite values passed through unchanged.  A negative zero is the
    integer 0 (it prints as "0"). *)
Inductive integral :=
| Int (z : Z)
| NaN
| Infinity (negative : bool).

(** [Math.round]: the nearest integer, a tie going towards +infinity,
    that is floor(x + 1/2) taken on the exact value of [x]. *)
Definition Math_round (x : number) : integral :=
  match x with
  | S754_zero _ => Int 0
  | S754_nan => NaN
  | S754_infinity s => Infinity s
  | S754_finite s m e =>
      let v := cond_Zopp s (Z.pos m) in
      if 0 <=? e then Int (v * 2 ^ e)
      else Int ((2 * v + 2 ^ (- e)) / 2 ^ (- e + 1))
  end.

End JsNumber.

(** ** JavaScript strings *)

Module JsString.

Definition code (c : ascii) : Z := Z.of_N (N_of_ascii c).
Definition char (z : Z) : ascii := ascii_of_N (Z.to_N z).

(** [toLowerCase] on one code unit: the ASCII capitals and the
    Latin-1 capitals (U+00C0..U+00DE without the multiplication sign
    U+00D7) move up by 32; every other code unit below 256 is its own
    lower case. *)
Definition lower_char (c : ascii) : ascii :=
  let n := code c in
  if ((65 <=? n) && (n <=? 90)) || ((192 <=? n) && (n <=? 222) && negb (n =? 215))
  then char (n + 32) else c.

(** [toUpperCase] on one code unit of the ASCII alphabet, the only
    alphabet [hslToHex] ever builds a string from. *)
Definition upper_char (c : ascii) : ascii :=
  let n := code c in
  if (97 <=? n) && (n <=? 122) then char (n - 32) else c.

Fixpoint map_string (f : ascii -> ascii) (s : string) : string :=
  match s with
  | EmptyString => EmptyString
  | String c s' => String (f c) (map_string f s')
  end.

Definition toLowerCase : string -> string := map_string lower_char.
Definition toUpperCase : string -> string := map_string upper_char.

(** [s.padStart(n, "0")] for a one-character filler. *)
Definition padStart (n : nat) (fill : ascii) (s : string) : string :=
  String.concat "" (repeat (String fill "") (n - String.length s)) ++ s.

Definition hex_digit (d : Z) : ascii :=
  if d <? 10 then char (48 + d) else char (87 + d).

(** Digits of a positive integer in base 16, most significant first.
    The fuel is the number of binary digits, more than enough. *)
Fixpoint hex_digits (fuel : nat) (z : Z) (acc : string) : string :=
  match fuel with
  | O => acc
  | S fuel' =>
      if z <=? 0 then acc
      else hex_digits fuel' (z / 16) (String (hex_digit (z mod 16)) acc)
  end.

(** [n.toString(16)] for an integral number. *)
Definition toString16 (n : JsNumber.integral) : string :=
  match n with
  | JsNumber.NaN => "NaN"
  | JsNumber.Infinity false => "Infinity"
  | JsNumber.Infinity true => "-Infinity"
  | JsNumber.Int 0 => "0"
  | JsNumber.Int (Z.pos p) => hex_digits (Pos.to_nat (Pos.size p)) (Z.pos p) ""
  | JsNumber.Int (Z.neg p) =>
      String "-" (hex_digits (Pos.to_nat (Pos.size p)) (Z.pos p) "")
  end.

End JsString.

(** ** colorUtils *)

Module colorUtils.
Import JsNumber JsString.

Record Position := mkPosition { row : Z; col : Z }.

Definition COLS : Z := 20.
Definition ROWS : Z := 16.

(** Converts HSL colour values to HEX. *)
Definition hslToHex (h s l : number) : string :=
  let s := div s (num 100) in
  let l := div l (num 100) in
  let c := mul (sub (num 1) (Math_abs (sub (mul (num 2) l) (num 1)))) s in
  let x := mul c (sub (num 1)
                   (Math_abs (sub (rem (div h (num 60)) (num 2)) (num 1)))) in
  let m := sub l (div c (num 2)) in
  let '(r, g, b) :=
    if leb (num 0) h && ltb h (num 60) then (c, x, num 0)
    else if leb (num 60) h && ltb h (num 120) then (x, c, num 0)
    else if leb (num 120) h && ltb h (num 180) then (num 0, c, x)
    else if leb (num 180) h && ltb h (num 240) then (num 0, x, c)
    else if leb (num 240) h && ltb h (num 300) then (x, num 0, c)
    else if leb (num 300) h && ltb h (num 360) then (c, num 0, x)
    else (num 0, num 0, num 0) in
  let rHex := padStart 2 "0" (toString16 (Math_round (mul (add r m) (num 255)))) in
  let gHex := padStart 2 "0" (toString16 (Math_round (mul (add g m) (num 255)))) in
  let bHex := padStart 2 "0" (toString16 (Math_round (mul (add b m) (num 255)))) in
  toUpperCase ("#" ++ rHex ++ gHex ++ bHex).

(** The colour pushed for one cell of the grid: the body of the inner
    loop of [generateColorGrid]. *)
Definition cellColor (row col : Z) : string :=
  let hue := mul (div (num col) (num COLS)) (num 360) in
  let '(saturation, lightness) :=
    if row <? 4
    then (num 100, sub (num 95) (mul (num row) (num 10)))
    else (num 100, sub (num 60) (mul (sub (num row) (num 4)) (num 4))) in
  hslToHex hue saturation lightness.

(** [for (let i = from; i < from + n; i++) acc = body(acc, i)]. *)
Fixpoint for_loop {A : Type} (n : nat) (from : Z) (body : A -> Z -> A) (acc : A) : A :=
  match n with
  | O => acc
  | S n' => for_loop n' (from + 1) body (body acc from)
  end.

(** Generates the 20x16 grid, row by row, each colour pushed at the end
    of the array. *)
Definition generateColorGrid : list string :=
  for_loop (Z.to_nat ROWS) 0
    (fun colors row =>
       for_loop (Z.to_nat COLS) 0
         (fun colors col => (colors ++ [cellColor row col])%list)
         colors)
    [].

(** *** Parsing a colour *)

Record RGB := mkRGB { r : Z; g : Z; b : Z }.

(** The character class [[a-f\d]] under the [i] flag. *)
Definition is_hex (c : ascii) : bool :=
  let n := code c in
  ((48 <=? n) && (n <=? 57)) || ((97 <=? n) && (n <=? 102))
  || ((65 <=? n) && (n <=? 70)).

Definition hex_value (c : ascii) : Z :=
  let n := code c in
  if n <=? 57 then n - 48 else if n <=? 70 then n - 55 else n - 87.

(** [parseInt(s, 16)] on a capture group, which holds hexadecimal digits
    only. *)
Definition parseInt16 (s : string) : Z :=
  fold_left (fun acc c => 16 * acc + hex_value c) (list_ascii_of_string s) 0.

(** The three capture groups of
    [/^#?([a-f\d]{2})([a-f\d]{2})([a-f\d]{2})$/i] on its input, or [None]
    when the expression does not match.  After the optional [#] exactly
    six hexadecimal digits must remain up to the end of the input. *)
Definition six_hex (s : string) : option (string * string * string) :=
  match list_ascii_of_string s with
  | [c1; c2; c3; c4; c5; c6] =>
      if forallb is_hex [c1; c2; c3; c4; c5; c6]
      then Some (String c1 (String c2 ""), String c3 (String c4 ""),
                 String c5 (String c6 ""))
      else None
  | _ => None
  end.

Definition hex_regex_exec (hex : string) : option (string * string * string) :=
  match hex with
  | String "#" rest =>
      match six_hex rest with
      | Some groups => Some groups
      | None => six_hex hex
      end
  | _ => six_hex hex
  end.

(** Converts HEX colour to RGB; black when the text is not a colour. *)
Definition hexToRgb (hex : string) : RGB :=
  match hex_regex_exec hex with
  | Some (g1, g2, g3) =>
      {| r := parseInt16 g1; g := parseInt16 g2; b := parseInt16 g3 |}
  | None => {| r := 0; g := 0; b := 0 |}
  end.

(** *** Position lookup *)

Definition Math_sqrt : number -> number := SFsqrt prec emax.

(** [Math.pow(d, 2)], the product of [d] with itself. *)
Definition Math_pow2 (d : number) : number := mul d d.

Definition Infinity_ : number := S754_infinity false.

(** The distance computed in the body of the [forEach] callback. *)
Definition distance (rgb targetRgb : RGB) : number :=
  Math_sqrt
    (add (add (Math_pow2 (sub (num (r rgb)) (num (r targetRgb))))
              (Math_pow2 (sub (num (g rgb)) (num (g targetRgb)))))
         (Math_pow2 (sub (num (b rgb)) (num (b targetRgb))))).

(** [colors.findIndex(c => c.toLowerCase() === targetColor.toLowerCase())],
    [None] standing for -1. *)
Definition findIndex_ci (colors : list string) (targetColor : string) : option nat :=
  fst <$> list_find (fun c => toLowerCase c = toLowerCase targetColor) colors.

(** The mutable variables of the nearest-colour scan. *)
Record Scan := mkScan { closestIndex : nat; minDistance : number }.

(** One call of the [forEach] callback. *)
Definition scan_step (targetRgb : RGB) (st : Scan) (color : string) (idx : nat) : Scan :=
  let rgb := hexToRgb color in
  let distance := distance rgb targetRgb in
  if ltb distance (minDistance st)
  then {| closestIndex := idx; minDistance := distance |}
  else st.

(** [colors.forEach((color, idx) => ...)] from index [idx] on. *)
Fixpoint forEach_from (targetRgb : RGB) (idx : nat) (colors : list string) (st : Scan) : Scan :=
  match colors with
  | [] => st
  | color :: rest =>
      forEach_from targetRgb (S idx) rest (scan_step targetRgb st color idx)
  end.

Definition position_of_index (index : nat) : Position :=
  {| row := Z.of_nat index / 20; col := Z.of_nat index mod 20 |}.

(** Finds the position (row, col) of a colour in the grid. *)
Definition findColorPosition (colors : list string) (targetColor : string) : Position :=
  match findIndex_ci colors targetColor with
  | Some exactIndex => position_of_index exactIndex
  | None =>
      let targetRgb := hexToRgb targetColor in
      let st := forEach_from targetRgb 0 colors
                  {| closestIndex := 0; minDistance := Infinity_ |} in
      position_of_index (closestIndex st)
  end.

(** *** Proximity *)

(** Chebyshev distance between two cells. *)
Definition chebyshev (a b : Position) : Z :=
  Z.max (Z.abs (col a - col b)) (Z.abs (row a - row b)).

Definition isWithinProximity (guessPos targetPos : Position) (maxDistance : Z) : bool :=
  let horizontalDistance := Z.abs (col guessPos - col targetPos) in
  let verticalDistance := Z.abs (row guessPos - row targetPos) in
  let distance := Z.max horizontalDistance verticalDistance in
  (distance <=? maxDistance) && (distance >? 0).

End colorUtils.

(** ** The browser platform: JSON values, the clock, [localStorage] *)

Module Platform.

(** A parsed JSON text.  An object is the ordered list of its own
    properties, each key occurring once. *)
#[warnings="-register-all"]
Inductive json :=
| JNull
| JBool (b : bool)
| JNum (z : Z)
| JStr (s : string)
| JArr (items : list json)
| JObj (props : list (string * json)).

Definition object := list (string * json).

Fixpoint obj_get (k : string) (o : object) : option json :=
  match o with
  | [] => None
  | (k', v) :: o' => if String.eqb k k' then Some v else obj_get k o'
  end.

(** Assignment of one property, as the object spread [{...o, k: v}]
    leaves it: an existing key keeps its place, a new key goes last. *)
Fixpoint obj_set (k : string) (v : json) (o : object) : object :=
  match o with
  | [] => [(k, v)]
  | (k', v') :: o' =>
      if String.eqb k k' then (k, v) :: o' else (k', v') :: obj_set k v o'
  end.

(** What a computation inside [try] ends with. *)
Inductive outcome (A : Type) :=
| Return (a : A)
| Throw (error : string).
Arguments Return {A} a.
Arguments Throw {A} error.

(** The member access [value.k]: [undefined] ([None]) on anything that
    has no such property, a [TypeError] on [null]. *)
Definition get_prop (value : json) (k : string) : outcome (option json) :=
  match value with
  | JNull => Throw "TypeError"
  | JObj o => Return (obj_get k o)
  | _ => Return None
  end.

(** [value !== s] for a string [s]. *)
Definition strict_ne_string (value : option json) (s : string) : bool :=
  match value with
  | Some (JStr s') => negb (String.eqb s' s)
  | _ => true
  end.

(** The state of the world the storage functions run in.  [window] is
    the content of [localStorage], or [None] where there is no window
    (rendering on the server); [accepts k v] tells whether
    [setItem(k, v)] goes through rather than throwing (quota);
    [now] is what [new Date().toISOString()] returns; [console] collects
    what [console.error] printed. *)
Record World := mkWorld {
  window : option (gmap string string);
  accepts : string -> string -> bool;
  now : string;
  console : list string
}.

Definition with_storage (w : World) (m : gmap string string) : World :=
  {| window := Some m; accepts := accepts w; now := now w; console := console w |}.

Definition console_error (msg : string) (w : World) : World :=
  {| window := window w; accepts := accepts w; now := now w;
     console := (console w ++ [msg])%list |}.

(** The same world at a later reading [t] of the clock. *)
Definition at_time (t : string) (w : World) : World :=
  {| window := window w; accepts := accepts w; now := t; console := console w |}.

(** Computations that read and write the world and may throw. *)
Definition js (A : Type) := World -> outcome A * World.

Definition ret {A} (a : A) : js A := fun w => (Return a, w).
Definition throw {A} (error : string) : js A := fun w => (Throw error, w).
Definition lift {A} (o : outcome A) : js A := fun w => (o, w).

Definition bind {A B} (m : js A) (k : A -> js B) : js B :=
  fun w =>
    match m w with
    | (Return a, w') => k a w'
    | (Throw e, w') => (Throw e, w')
    end.

(** [try { body } catch (error) { handler }] *)
Definition try_catch {A} (body : js A) (handler : string -> World -> A * World)
  : World -> A * World :=
  fun w =>
    match body w with
    | (Return a, w') => (a, w')
    | (Throw e, w') => handler e w'
    end.

Definition storage_of (w : World) : gmap string string :=
  default ∅ (window w).

Definition getItem (k : string) : js (option string) :=
  fun w => (Return (storage_of w !! k), w).

Definition setItem (k v : string) : js unit :=
  fun w =>
    if accepts w k v
    then (Return tt, with_storage w (<[k := v]> (storage_of w)))
    else (Throw "QuotaExceededError", w).

Definition removeItem (k : string) : js unit :=
  fun w => (Return tt, with_storage w (delete k (storage_of w))).

(** [s.split(sep)[0]]: the text before the first separator, the whole
    text when there is none. *)
Fixpoint split_head (sep : ascii) (s : string) : string :=
  match s with
  | EmptyString => EmptyString
  | String c s' =>
      if Ascii.eqb c sep then EmptyString else String c (split_head sep s')
  end.

End Platform.

Declare Scope js_scope.
Notation "x <- m ;; k" := (Platform.bind m (fun x => k))
  (at level 100, m at next level, right associativity) : js_scope.

(** ** storageUtils *)

Module storageUtils.
Import Platform.
Local Open Scope js_scope.

Definition STORAGE_KEY : string := "colordle_game_state".

(** Gets the current date string in YYYY-MM-DD format. *)
Definition getTodayString (w : World) : string := split_head "T" (now w).

Section Json.
(** [JSON.parse], [None] when it throws a [SyntaxError], and
    [JSON.stringify]. *)
Variable JSON_parse : string -> option json.
Variable JSON_stringify : json -> string.

Definition parse (text : string) : js json :=
  match JSON_parse text with
  | Some v => ret v
  | None => throw "SyntaxError"
  end.

(** Loads game state from localStorage; [None] is [null]. *)
Definition loadGameState (w : World) : option json * World :=
  match window w with
  | None => (None, w)
  | Some _ =>
      try_catch
        (stored <- getItem STORAGE_KEY ;;
         match stored with
         | None | Some "" => ret None
         | Some stored =>
             gameState <- parse stored ;;
             let today := getTodayString w in
             date <- lift (get_prop gameState "date") ;;
             if strict_ne_string date today
             then _ <- removeItem STORAGE_KEY ;; ret None
             else ret (Some gameState)
         end)
        (fun error w' =>
           (None, console_error "Error loading game state:" w'))
        w
  end.

(** Saves game state to localStorage with today's date. *)
Definition saveGameState (state : object) (w : World) : World :=
  match window w with
  | None => w
  | Some _ =>
      snd (try_catch
             (let gameState := obj_set "date" (JStr (getTodayString w)) state in
              setItem STORAGE_KEY (JSON_stringify (JObj gameState)))
             (fun error w' =>
                (tt, console_error "Error saving game state:" w'))
             w)
  end.

(** Clears the game state from localStorage. *)
Definition clearGameState (w : World) : World :=
  match window w with
  | None => w
  | Some _ => snd (removeItem STORAGE_KEY w)
  end.

End Json.

End storageUtils.

(** ** A JSON codec

    [JSON.parse] and [JSON.stringify] belong to the platform; the storage
    functions above take them as parameters.  The codec below implements
    them on the JSON texts this program stores (integers for numbers, code
    units below 256 in strings) and serves to run the storage functions
    on concrete records. *)

Module Json.
Import Platform JsString.

Fixpoint dec_digits (fuel : nat) (z : Z) (acc : list ascii) : list ascii :=
  match fuel with
  | O => acc
  | S fuel' =>
      if z <=? 0 then acc
      else dec_digits fuel' (z / 10) (char (48 + z mod 10) :: acc)
  end.

Definition print_int (z : Z) : list ascii :=
  match z with
  | 0 => ["0"%char]
  | Z.pos p => dec_digits (Pos.to_nat (Pos.size p)) z []
  | Z.neg p => "-"%char :: dec_digits (Pos.to_nat (Pos.size p)) (Z.pos p) []
  end.

Definition escape_char (c : ascii) : list ascii :=
  let n := code c in
  if n =? 34 then ["\"%char; char 34]
  else if n =? 92 then ["\"; "\"]%char
  else if n =? 8 then ["\"; "b"]%char
  else if n =? 12 then ["\"; "f"]%char
  else if n =? 10 then ["\"; "n"]%char
  else if n =? 13 then ["\"; "r"]%char
  else if n =? 9 then ["\"; "t"]%char
  else if n <? 32 then ["\"; "u"; "0"; "0"; hex_digit (n / 16); hex_digit (n mod 16)]%char
  else [c].

Definition print_string (s : string) : list ascii :=
  (char 34 :: flat_map escape_char (list_ascii_of_string s) ++ [char 34])%list.

Fixpoint print (v : json) : list ascii :=
  match v with
  | JNull => list_ascii_of_string "null"
  | JBool true => list_ascii_of_string "true"
  | JBool false => list_ascii_of_string "false"
  | JNum z => print_int z
  | JStr s => print_string s
  | JArr items =>
      let fix print_items (l : list json) : list ascii :=
        match l with
        | [] => []
        | [x] => print x
        | x :: l' => (print x ++ ","%char :: print_items l')%list
        end in
      ("["%char :: print_items items ++ ["]"%char])%list
  | JObj props =>
      let fix print_props (l : list (string * json)) : list ascii :=
        match l with
        | [] => []
        | [(k, x)] => (print_string k ++ ":"%char :: print x)%list
        | (k, x) :: l' =>
            (print_string k ++ ":"%char :: print x ++ ","%char :: print_props l')%list
        end in
      ("{"%char :: print_props props ++ ["}"%char])%list
  end.

Definition stringify (v : json) : string := string_of_list_ascii (print v).

Definition is_ws (c : ascii) : bool :=
  let n := code c in (n =? 32) || (n =? 9) || (n =? 10) || (n =? 13).

Fixpoint skip_ws (s : list ascii) : list ascii :=
  match s with
  | c :: s' => if is_ws c then skip_ws s' else s
  | [] => []
  end.

Definition is_digit (c : ascii) : bool :=
  let n := code c in (48 <=? n) && (n <=? 57).

Fixpoint read_digits (s : list ascii) (acc : Z) : Z * list ascii :=
  match s with
  | c :: s' => if is_digit c then read_digits s' (10 * acc + (code c - 48)) else (acc, s)
  | [] => (acc, [])
  end.

(** An integer: an optional minus sign, then [0] or digits without a
    leading zero; a fraction or an exponent is outside the fragment. *)
Definition read_int (s : list ascii) : option (Z * list ascii) :=
  let '(negative, s1) :=
    match s with
    | "-"%char :: s' => (true, s')
    | _ => (false, s)
    end in
  match s1 with
  | c :: s2 =>
      if negb (is_digit c) then None
      else
        let '(z, rest) :=
          if code c =? 48 then (0, s2) else read_digits s1 0 in
        match rest with
        | c' :: _ =>
            if is_digit c' || (code c' =? 46) || (code c' =? 101) || (code c' =? 69)
            then None
            else Some (if negative then - z else z, rest)
        | [] => Some (if negative then - z else z, rest)
        end
  | [] => None
  end.

Definition hex4 (c1 c2 c3 c4 : ascii) : option ascii :=
  if forallb colorUtils.is_hex [c1; c2; c3; c4] then
    let n := colorUtils.hex_value c1 * 4096 + colorUtils.hex_value c2 * 256
             + colorUtils.hex_value c3 * 16 + colorUtils.hex_value c4 in
    if n <? 256 then Some (char n) else None
  else None.

Definition unescape (e : ascii) : option ascii :=
  let n := code e in
  if n =? 34 then Some e
  else if n =? 92 then Some e
  else if n =? 47 then Some e
  else if n =? 98 then Some (char 8)
  else if n =? 102 then Some (char 12)
  else if n =? 110 then Some (char 10)
  else if n =? 114 then Some (char 13)
  else if n =? 116 then Some (char 9)
  else None.

(** The characters of a string literal after its opening quote. *)
Fixpoint read_string (s : list ascii) : option (string * list ascii) :=
  let cons (ch : option ascii) (tail : option (string * list ascii)) :=
    match ch, tail with
    | Some ch, Some (str, rest) => Some (String ch str, rest)
    | _, _ => None
    end in
  match s with
  | [] => None
  | c :: s' =>
      if code c =? 34 then Some (EmptyString, s')
      else if code c <? 32 then None
      else if code c =? 92 then
        match s' with
        | e :: s'' =>
            if code e =? 117 then
              match s'' with
              | h1 :: h2 :: h3 :: h4 :: rest => cons (hex4 h1 h2 h3 h4) (read_string rest)
              | _ => None
              end
            else cons (unescape e) (read_string s'')
        | [] => None
        end
      else cons (Some c) (read_string s')
  end.

Definition starts_with (lit : string) (s : list ascii) : option (list ascii) :=
  let l := list_ascii_of_string lit in
  if bool_decide (take (length l) s = l) then Some (drop (length l) s) else None.

(** Recursive descent; the fuel bounds the number of values and
    separators read, the length of the text is enough. *)
Fixpoint read_value (fuel : nat) (s : list ascii) : option (json * list ascii) :=
  match fuel with
  | O => None
  | S fuel' =>
      match skip_ws s with
      | [] => None
      | c :: s' =>
          if code c =? 34 then
            match read_string s' with
            | Some (str, rest) => Some (JStr str, rest)
            | None => None
            end
          else if code c =? 91 then
            match skip_ws s' with
            | c' :: rest =>
                if code c' =? 93 then Some (JArr [], rest)
                else
                  match read_items fuel' s' with
                  | Some (items, rest') => Some (JArr items, rest')
                  | None => None
                  end
            | [] => None
            end
          else if code c =? 123 then
            match skip_ws s' with
            | c' :: rest =>
                if code c' =? 125 then Some (JObj [], rest)
                else
                  match read_props fuel' s' [] with
                  | Some (props, rest') => Some (JObj props, rest')
                  | None => None
                  end
            | [] => None
            end
          else
            match starts_with "null" (c :: s'), starts_with "true" (c :: s'),
                  starts_with "false" (c :: s') with
            | Some rest, _, _ => Some (JNull, rest)
            | _, Some rest, _ => Some (JBool true, rest)
            | _, _, Some rest => Some (JBool false, rest)
            | _, _, _ =>
                match read_int (c :: s') with
                | Some (z, rest) => Some (JNum z, rest)
                | None => None
                end
            end
      end
  end
with read_items (fuel : nat) (s : list ascii) : option (list json * list ascii) :=
  match fuel with
  | O => None
  | S fuel' =>
      match read_value fuel' s with
      | Some (v, rest) =>
          match skip_ws rest with
          | c :: rest' =>
              if code c =? 93 then Some ([v], rest')
              else if code c =? 44 then
                match read_items fuel' rest' with
                | Some (items, rest'') => Some (v :: items, rest'')
                | None => None
                end
              else None
          | [] => None
          end
      | None => None
      end
  end
with read_props (fuel : nat) (s : list ascii) (acc : object) : option (object * list ascii) :=
  match fuel with
  | O => None
  | S fuel' =>
      match skip_ws s with
      | q :: s1 =>
          if negb (code q =? 34) then None else
          match read_string s1 with
          | Some (k, s2) =>
              match skip_ws s2 with
              | colon :: s3 =>
                  if negb (code colon =? 58) then None else
                  match read_value fuel' s3 with
                  | Some (v, rest) =>
                      let acc' := obj_set k v acc in
                      match skip_ws rest with
                      | c :: rest' =>
                          if code c =? 125 then Some (acc', rest')
                          else if code c =? 44 then read_props fuel' rest' acc'
                          else None
                      | [] => None
                      end
                  | None => None
                  end
              | [] => None
              end
          | None => None
          end
      | [] => None
      end
  end.

(** [JSON.parse]: one value, then nothing but white space. *)
Definition parse (text : string) : option json :=
  let s := list_ascii_of_string text in
  match read_value (S (length s)) s with
  | Some (v, rest) =>
      match skip_ws rest with
      | [] => Some v
      | _ :: _ => None
      end
  | None => None
  end.

End Json.

(** ** The [Colordle] component: the state behind one game *)

Module Colordle.
Import JsString colorUtils.

Record Guess := mkGuess {
  color : string;
  isClose : bool;
  position : Position
}.

Inductive GameStatus := playing | won | lost.

(** The values held by the [useState] hooks that the click handler reads
    or writes. *)
Record State := mkState {
  guesses : list Guess;
  currentClue : Z;
  gameState : GameStatus;
  selectedColor : option string;
  animateGuess : bool;
  celebrating : bool
}.

Definition initial : State :=
  {| guesses := []; currentClue := 1; gameState := playing;
     selectedColor := None; animateGuess := false; celebrating := false |}.

Definition setGuesses (v : list Guess) (s : State) : State :=
  mkState v (currentClue s) (gameState s) (selectedColor s) (animateGuess s) (celebrating s).
Definition setCurrentClue (v : Z) (s : State) : State :=
  mkState (guesses s) v (gameState s) (selectedColor s) (animateGuess s) (celebrating s).
Definition setGameState (v : GameStatus) (s : State) : State :=
  mkState (guesses s) (currentClue s) v (selectedColor s) (animateGuess s) (celebrating s).
Definition setSelectedColor (v : option string) (s : State) : State :=
  mkState (guesses s) (currentClue s) (gameState s) v (animateGuess s) (celebrating s).
Definition setAnimateGuess (v : bool) (s : State) : State :=
  mkState (guesses s) (currentClue s) (gameState s) (selectedColor s) v (celebrating s).
Definition setCelebrating (v : bool) (s : State) : State :=
  mkState (guesses s) (currentClue s) (gameState s) (selectedColor s) (animateGuess s) v.

Definition colors : list string := generateColorGrid.

(** Hardcoded daily colour and clues. *)
Definition targetColor : string := "#FFB3E0".
Definition clues : list string := ["Flamingo"; "Hello Kitty"; "Cotton Candy"].
Definition targetPosition : Position := findColorPosition colors targetColor.

(** The functions handed to [setTimeout].  The first one is the body
    delayed by 200 ms in [handleColorClick]; it carries the [guesses] and
    the [color] its closure captured at the click. *)
Inductive Callback :=
| ScoreGuess (guesses : list Guess) (color : string)
| EndCelebration
| ClearSelection.

(** A pending timer: its delay in milliseconds and what it runs. *)
Definition Timer : Type := Z * Callback.

Definition is_playing (s : State) : bool :=
  match gameState s with playing => true | _ => false end.

(** The click handler: the new state and the timers it starts. *)
Definition handleColorClick (s : State) (color : string) : State * list Timer :=
  if negb (is_playing s) || (3 <=? Z.of_nat (length (guesses s))) then (s, [])
  else
    (setAnimateGuess true (setSelectedColor (Some color) s),
     [(200, ScoreGuess (guesses s) color)]).

(** What a timer does when it fires. *)
Definition run (cb : Callback) (s : State) : State * list Timer :=
  match cb with
  | ScoreGuess guesses color =>
      let position := findColorPosition colors color in
      let isClose := isWithinProximity position targetPosition 1 in
      let newGuess := {| color := color; isClose := isClose; position := position |} in
      let newGuesses := (guesses ++ [newGuess])%list in
      let s := setGuesses newGuesses s in
      let '(s, timers) :=
        if String.eqb (toLowerCase color) (toLowerCase targetColor) then
          (setCelebrating true (setGameState won s), [(3000, EndCelebration)])
        else if 3 <=? Z.of_nat (length newGuesses) then
          (setGameState lost (setCurrentClue 3 s), [])
        else
          (setCurrentClue (Z.of_nat (length newGuesses) + 1) s, []) in
      (s, (timers ++ [(100, ClearSelection)])%list)
  | EndCelebration => (setCelebrating false s, [])
  | ClearSelection => (setAnimateGuess false (setSelectedColor None s), [])
  end.

(** The object literal [{guesses, currentClue, gameStatus: gameState,
    hasSeenInstructions}] that the saving effect hands to [saveGameState]. *)
Definition guessObject (gs : Guess) : Platform.json :=
  Platform.JObj
    [ ("color", Platform.JStr (color gs));
      ("isClose", Platform.JBool (isClose gs));
      ("position",
       Platform.JObj [ ("row", Platform.JNum (row (position gs)));
                       ("col", Platform.JNum (col (position gs))) ]) ].

Definition statusText (st : GameStatus) : string :=
  match st with
  | playing => "playing"
  | won => "won"
  | lost => "lost"
  end.

Definition stateObject (s : State) (hasSeenInstructions : bool) : Platform.object :=
  [ ("guesses", Platform.JArr (map guessObject (guesses s)));
    ("currentClue", Platform.JNum (currentClue s));
    ("gameStatus", Platform.JStr (statusText (gameState s)));
    ("hasSeenInstructions", Platform.JBool hasSeenInstructions) ].

(** One guess from the click to the scored state: the handler runs, then
    the timer it started fires, nothing else happening in between. *)
Definition submitGuess (s : State) (color : string) : State :=
  let '(s', timers) := handleColorClick s color in
  fold_left (fun st '(_, cb) => fst (run cb st)) timers s'.

End Colordle.

(** ** The grid, evaluated and as the design describes it *)

Module Palette.
Import JsNumber JsString colorUtils.

(** The 320 colours that [generateColorGrid] evaluates to, sixteen rows
    of twenty. *)
Definition grid_value : list string :=
  [
   "#FFE5E5"; "#FFEDE5"; "#FFF5E5"; "#FFFCE5"; "#FAFFE5"; "#F2FFE5"; "#EBFFE5";
   "#E5FFE8"; "#E5FFF0"; "#E5FFF7"; "#E5FFFF"; "#E5F7FF"; "#E5F0FF"; "#E5E8FF";
   "#EBE5FF"; "#F2E5FF"; "#FAE5FF"; "#FFE5FC"; "#FFE5F5"; "#FFE5ED";
   "#FFB3B3"; "#FFC9B3"; "#FFE0B3"; "#FFF7B3"; "#F0FFB3"; "#D9FFB3"; "#C2FFB3";
   "#B3FFBA"; "#B3FFD1"; "#B3FFE8"; "#B3FFFF"; "#B3E8FF"; "#B3D1FF"; "#B3BAFF";
   "#C2B3FF"; "#D9B3FF"; "#F0B3FF"; "#FFB3F7"; "#FFB3E0"; "#FFB3C9";
   "#FF8080"; "#FFA680"; "#FFCC80"; "#FFF280"; "#E6FF80"; "#BFFF80"; "#99FF80";
   "#80FF8C"; "#80FFB3"; "#80FFD9"; "#80FFFF"; "#80D9FF"; "#80B3FF"; "#808CFF";
   "#9980FF"; "#BF80FF"; "#E580FF"; "#FF80F2"; "#FF80CC"; "#FF80A6";
   "#FF4D4D"; "#FF824D"; "#FFB84D"; "#FFED4D"; "#DBFF4D"; "#A6FF4D"; "#70FF4D";
   "#4DFF5E"; "#4DFF94"; "#4DFFC9"; "#4DFFFF"; "#4DC9FF"; "#4D94FF"; "#4D5EFF";
   "#704DFF"; "#A64DFF"; "#DB4DFF"; "#FF4DED"; "#FF4DB8"; "#FF4D82";
   "#FF3333"; "#FF7033"; "#FFAD33"; "#FFEB33"; "#D6FF33"; "#99FF33"; "#5CFF33";
   "#33FF47"; "#33FF85"; "#33FFC2"; "#33FFFF"; "#33C2FF"; "#3385FF"; "#3347FF";
   "#5C33FF"; "#9933FF"; "#D633FF"; "#FF33EB"; "#FF33AD"; "#FF3370";
   "#FF1F1F"; "#FF621F"; "#FFA51F"; "#FFE91F"; "#D2FF1F"; "#8FFF1F"; "#4BFF1F";
   "#1FFF35"; "#1FFF78"; "#1FFFBC"; "#1FFFFF"; "#1FBCFF"; "#1F78FF"; "#1F35FF";
   "#4B1FFF"; "#8F1FFF"; "#D21FFF"; "#FF1FE9"; "#FF1FA5"; "#FF1F62";
   "#FF0A0A"; "#FF540A"; "#FF9D0A"; "#FFE70A"; "#CEFF0A"; "#85FF0A"; "#3BFF0A";
   "#0AFF23"; "#0AFF6C"; "#0AFFB6"; "#0AFFFF"; "#0AB6FF"; "#0A6CFF"; "#0A23FF";
   "#3B0AFF"; "#850AFF"; "#CE0AFF"; "#FF0AE7"; "#FF0A9D"; "#FF0A54";
   "#F50000"; "#F54900"; "#F59300"; "#F5DC00"; "#C4F500"; "#7AF500"; "#31F500";
   "#00F518"; "#00F562"; "#00F5AB"; "#00F5F5"; "#00ABF5"; "#0062F5"; "#0018F5";
   "#3100F5"; "#7A00F5"; "#C400F5"; "#F500DC"; "#F50093"; "#F50049";
   "#E00000"; "#E04300"; "#E08700"; "#E0CA00"; "#B4E000"; "#70E000"; "#2DE000";
   "#00E016"; "#00E05A"; "#00E09D"; "#00E0E0"; "#009DE0"; "#005AE0"; "#0016E0";
   "#2D00E0"; "#7000E0"; "#B400E0"; "#E000CA"; "#E00087"; "#E00043";
   "#CC0000"; "#CC3D00"; "#CC7A00"; "#CCB800"; "#A3CC00"; "#66CC00"; "#29CC00";
   "#00CC14"; "#00CC52"; "#00CC8F"; "#00CCCC"; "#008FCC"; "#0052CC"; "#0014CC";
   "#2900CC"; "#6600CC"; "#A300CC"; "#CC00B8"; "#CC007A"; "#CC003D";
   "#B80000"; "#B83700"; "#B86E00"; "#B8A500"; "#93B800"; "#5CB800"; "#25B800";
   "#00B812"; "#00B849"; "#00B881"; "#00B8B8"; "#0081B8"; "#0049B8"; "#0012B8";
   "#2500B8"; "#5C00B8"; "#9300B8"; "#B800A5"; "#B8006E"; "#B80037";
   "#A30000"; "#A33100"; "#A36200"; "#A39300"; "#83A300"; "#52A300"; "#21A300";
   "#00A310"; "#00A341"; "#00A372"; "#00A3A3"; "#0072A3"; "#0041A3"; "#0010A3";
   "#2100A3"; "#5200A3"; "#8300A3"; "#A30093"; "#A30062"; "#A30031";
   "#8F0000"; "#8F2B00"; "#8F5600"; "#8F8100"; "#728F00"; "#478F00"; "#1D8F00";
   "#008F0E"; "#008F39"; "#008F64"; "#008F8F"; "#00648F"; "#00398F"; "#000E8F";
   "#1D008F"; "#47008F"; "#72008F"; "#8F0081"; "#8F0056"; "#8F002B";
   "#7A0000"; "#7A2500"; "#7A4900"; "#7A6E00"; "#627A00"; "#3D7A00"; "#187A00";
   "#007A0C"; "#007A31"; "#007A56"; "#007A7A"; "#00567A"; "#00317A"; "#000C7A";
   "#18007A"; "#3D007A"; "#62007A"; "#7A006E"; "#7A0049"; "#7A0025";
   "#660000"; "#661F00"; "#663D00"; "#665C00"; "#526600"; "#336600"; "#146600";
   "#00660A"; "#006629"; "#006647"; "#006666"; "#004766"; "#002966"; "#000A66";
   "#140066"; "#330066"; "#520066"; "#66005C"; "#66003D"; "#66001F";
   "#520000"; "#521800"; "#523100"; "#524900"; "#415200"; "#295200"; "#105200";
   "#005208"; "#005221"; "#005239"; "#005252"; "#003952"; "#002152"; "#000852";
   "#100052"; "#290052"; "#410052"; "#520049"; "#520031"; "#520018" ].

(** A colour as the data model has it: [#] and six hexadecimal digits
    in upper case. *)
Definition is_upper_hex (c : ascii) : bool :=
  let n := code c in
  ((48 <=? n) && (n <=? 57)) || ((65 <=? n) && (n <=? 70)).

Definition is_color (s : string) : bool :=
  match s with
  | String sharp digits =>
      (code sharp =? 35) && (String.length digits =? 6)%nat
      && forallb is_upper_hex (list_ascii_of_string digits)
  | EmptyString => false
  end.

(** The design's scheme, cell by cell.  The lightness of a row, in
    percent: the tint band for rows 0 to 3, the spectrum band below. *)
Definition band_lightness (row : Z) : number :=
  if row <? 4 then sub (num 95) (mul (num row) (num 10))
  else sub (num 60) (mul (sub (num row) (num 4)) (num 4)).

Definition cell_hue (col : Z) : number := mul (div (num col) (num COLS)) (num 360).

(** The integer part of a non-negative number. *)
Definition floor (x : number) : Z :=
  match x with
  | S754_finite false m e => if 0 <=? e then Z.pos m * 2 ^ e else Z.pos m / 2 ^ (- e)
  | _ => 0
  end.

(** The standard conversion: chroma, intermediate value and match value,
    then the sector of the hue, 60 degrees wide, picks which of chroma,
    intermediate and zero goes to red, green and blue. *)
Definition hsl_to_rgb (h s l : number) : Z * Z * Z :=
  let s := div s (num 100) in
  let l := div l (num 100) in
  let chroma := mul (sub (num 1) (Math_abs (sub (mul (num 2) l) (num 1)))) s in
  let intermediate :=
    mul chroma (sub (num 1) (Math_abs (sub (rem (div h (num 60)) (num 2)) (num 1)))) in
  let m := sub l (div chroma (num 2)) in
  let zero := num 0 in
  let '(r1, g1, b1) :=
    nth (Z.to_nat (floor (div h (num 60))))
      [ (chroma, intermediate, zero); (intermediate, chroma, zero);
        (zero, chroma, intermediate); (zero, intermediate, chroma);
        (intermediate, zero, chroma); (chroma, zero, intermediate) ]
      (zero, zero, zero) in
  let channel v :=
    match Math_round (mul (add v m) (num 255)) with
    | Int z => z
    | _ => 0
    end in
  (channel r1, channel g1, channel b1).

Definition upper_hex_digit (d : Z) : ascii :=
  if d <? 10 then char (48 + d) else char (55 + d).

(** Two hexadecimal digits, upper case, for a channel in 0..255. *)
Definition hex2 (v : Z) : string :=
  String (upper_hex_digit (v / 16)) (String (upper_hex_digit (v mod 16)) EmptyString).

Definition cell_spec (row col : Z) : string :=
  let '(r, g, b) := hsl_to_rgb (cell_hue col) (num 100) (band_lightness row) in
  "#" ++ hex2 r ++ hex2 g ++ hex2 b.

(** Integers [from], [from + 1], ..., [n] of them. *)
Fixpoint range (n : nat) (from : Z) : list Z :=
  match n with
  | O => []
  | S n' => from :: range n' (from + 1)
  end.

Definition grid_spec : list string :=
  flat_map (fun row => map (cell_spec row) (range (Z.to_nat COLS) 0))
           (range (Z.to_nat ROWS) 0).

End Palette.

(** ** Integer view of the nearest-colour scan *)

Module Nearest.
Import JsNumber JsString colorUtils.

(** The square of the Euclidean distance between two colours. *)
Definition distance2 (rgb targetRgb : RGB) : Z :=
  (r rgb - r targetRgb) ^ 2 + (g rgb - g targetRgb) ^ 2 + (b rgb - b targetRgb) ^ 2.

(** Channels as [parseInt] of two hexadecimal digits gives them. *)
Definition in_gamut (c : RGB) : Prop :=
  0 <= r c <= 255 /\ 0 <= g c <= 255 /\ 0 <= b c <= 255.

Definition black : RGB := {| r := 0; g := 0; b := 0 |}.

(** The key a colour of the grid is compared by. *)
Definition rgb_key (targetRgb : RGB) (color : string) : Z :=
  distance2 (hexToRgb color) targetRgb.

(** [k] is strictly below the least key so far; [None] is no key yet. *)
Definition below (m : option Z) (k : Z) : bool :=
  match m with
  | None => true
  | Some m => k <? m
  end.

(** The scan on integer keys: the index and the key of the first least
    element. *)
Fixpoint nearest_from (key : string -> Z) (idx : nat) (colors : list string)
    (st : nat * option Z) : nat * option Z :=
  match colors with
  | [] => st
  | color :: rest =>
      nearest_from key (S idx) rest
        (if below (snd st) (key color) then (idx, Some (key color)) else st)
  end.

(** The variables of the scan that an integer state stands for. *)
Definition as_scan (st : nat * option Z) : Scan :=
  {| closestIndex := fst st;
     minDistance := match snd st with
                    | None => Infinity_
                    | Some z => Math_sqrt (num z)
                    end |}.

Definition tracked (m : option Z) : Prop :=
  match m with
  | None => True
  | Some z => 0 <= z < 2 ^ 18
  end.

(** Six characters, all hexadecimal digits. *)
Definition six_ok (l : list ascii) : bool :=
  (length l =? 6)%nat && forallb is_hex l.

End Nearest.

(** ** Shapes of binary64 values *)

Module Binary64.
Import JsNumber.

(** The number an integer [n] with at most 53 binary digits is: the
    digits moved up to fill the 53-bit mantissa. *)
Definition canon (s : bool) (n : positive) : number :=
  S754_finite s (Z.to_pos (Z.pos n * 2 ^ (53 - Z.pos (digits2_pos n))))
    (Z.pos (digits2_pos n) - 53).

(** Exponent and mantissa of the square root of [m * 2^e], [m] of 53
    binary digits. *)
Definition sqrt_exponent (e : Z) : Z := (53 + e + 1) / 2 - 53.

Definition sqrt_mantissa (m : positive) (e : Z) : Z :=
  let '(q, r) := Z.sqrtrem (Z.pos m * 2 ^ (e - 2 * sqrt_exponent e)) in
  if r <=? q then q else q + 1.

(** The same for the square root of a positive integer [x]. *)
Definition root_exponent (x : Z) : Z := (Z.log2 x + 2) / 2 - 53.

Definition root_mantissa (x : Z) : Z :=
  let '(q, r) := Z.sqrtrem (x * 2 ^ (- 2 * root_exponent x)) in
  if r <=? q then q else q + 1.

End Binary64.

(** ** Sample worlds *)

Module Sample.
Import Platform storageUtils Colordle.

(** A game with one wrong guess on record. *)
Definition game : State :=
  {| guesses := [ {| color := "#FF0000"; isClose := false;
                     position := {| colorUtils.row := 5; colorUtils.col := 0 |} |} ];
     currentClue := 2; gameState := playing;
     selectedColor := None; animateGuess := false; celebrating := false |}.

Definition saved : object := stateObject game true.

Definition yesterday : string := "2025-11-02".
Definition morning : string := "2025-11-03T09:30:00.000Z".
Definition evening : string := "2025-11-03T21:05:10.250Z".

Definition stale_props : object := (saved ++ [("date", JStr yesterday)])%list.
Definition stale_text : string := Json.stringify (JObj stale_props).
Definition corrupt_text : string := "{oops".

Definition browser (content : gmap string string) : World :=
  {| window := Some content; accepts := fun _ _ => true;
     now := morning; console := [] |}.

Definition stale_world : World := browser {[ STORAGE_KEY := stale_text ]}.
Definition corrupt_world : World := browser {[ STORAGE_KEY := corrupt_text ]}.
Definition fresh_world : World := browser ∅.

(** A grid of three entries for the lookup. *)
Definition small_grid : list string := ["#FFFFFF"; "#102030"; "#000001"].

End Sample.

(** ** Colours as the design reads them

    The conversion from a text to a point of RGB space, written from the
    description of a colour (six hexadecimal digits after a sharp sign,
    two per channel) and not from [hexToRgb]: the lookup is stated
    against it, and [hexToRgb] is proved to agree with it. *)

Module Rgb.
Import colorUtils Nearest.

(** The place of a character in a text, counted from 0. *)
Definition place (c : ascii) (alphabet : string) : option Z :=
  (fun found => Z.of_nat (fst found))
    <$> list_find (fun d => d = c) (list_ascii_of_string alphabet).

(** The value of a hexadecimal digit, written in either case. *)
Definition digit (c : ascii) : option Z :=
  match place c "0123456789abcdef" with
  | Some v => Some v
  | None => place c "0123456789ABCDEF"
  end.

(** A channel: two digits, sixteens then units. *)
Definition channel (sixteens units : ascii) : option Z :=
  match digit sixteens, digit units with
  | Some s, Some u => Some (16 * s + u)
  | _, _ => None
  end.

(** Red, green and blue from exactly six digits. *)
Definition of_digits (l : list ascii) : option RGB :=
  match l with
  | [r1; r2; g1; g2; b1; b2] =>
      match channel r1 r2, channel g1 g2, channel b1 b2 with
      | Some r, Some g, Some b => Some {| r := r; g := g; b := b |}
      | _, _, _ => None
      end
  | _ => None
  end.

(** A colour is written as six hexadecimal digits, with or without a
    leading sharp sign; any other text is no colour. *)
Definition colour_spec (s : string) : option RGB :=
  match list_ascii_of_string s with
  | "#"%char :: l => of_digits l
  | l => of_digits l
  end.

(** The point of RGB space a text stands for; black for a text that is
    no colour. *)
Definition rgb_spec (s : string) : RGB := default black (colour_spec s).

End Rgb.

(** ** Whole sessions *)

Module Rounds.
Import JsString colorUtils Colordle.

(** The guess the 200 ms callback records for a colour. *)
Definition scoreOf (color : string) : Guess :=
  let position := findColorPosition colors color in
  {| color := color;
     isClose := isWithinProximity position targetPosition 1;
     position := position |}.

(** [color.toLowerCase() === targetColor.toLowerCase()] *)
Definition hits (color : string) : Prop := toLowerCase color = toLowerCase targetColor.

(** A session: the clicks one after the other, each scored before the
    next. *)
Definition play (s : State) (clicks : list string) : State :=
  fold_left submitGuess clicks s.

(** The timers fire in the order they were started. *)
Definition settle (timers : list Timer) (s : State) : State :=
  fold_left (fun st '(_, cb) => fst (run cb st)) timers s.

(** Two clicks within the 200 ms of the first one's delay: both handlers
    run before either callback does. *)
Definition doubleClick (s : State) (first second : string) : State :=
  let '(s1, timers1) := handleColorClick s first in
  let '(s2, timers2) := handleColorClick s1 second in
  settle (timers1 ++ timers2) s2.

(** [idx < currentClue || gameState !== "playing"]: the clue is shown,
    not the word Locked. *)
Definition clueVisible (s : State) (idx : nat) : bool :=
  (Z.of_nat idx <? currentClue s) || negb (is_playing s).

Definition visibleClues (s : State) : list string :=
  map snd (filter (fun p => clueVisible s (fst p)) (imap pair clues)).

(** What every state of a session satisfies. *)
Definition consistent (s : State) : Prop :=
  (length (guesses s) <= 3)%nat
  /\ Forall (fun gs => gs = scoreOf (color gs)) (guesses s)
  /\ match gameState s with
     | playing =>
         (length (guesses s) < 3)%nat
         /\ currentClue s = Z.of_nat (length (guesses s)) + 1
         /\ Forall (fun gs => ~ hits (color gs)) (guesses s)
     | lost =>
         length (guesses s) = 3%nat
         /\ currentClue s = 3
         /\ Forall (fun gs => ~ hits (color gs)) (guesses s)
     | won =>
         exists earlier gs,
           guesses s = (earlier ++ [gs])%list
           /\ hits (color gs)
           /\ Forall (fun gs' => ~ hits (color gs')) earlier
           /\ currentClue s = Z.of_nat (length (guesses s))
     end.

End Rounds.

(** ** The instructions flag and the saving effect *)

Module Instructions.
Import Platform storageUtils.
Section Json.
Variable JSON_parse : string -> option json.
Variable JSON_stringify : json -> string.

(** Whether [if (value)] takes the branch. *)
Definition truthy (value : json) : bool :=
  match value with
  | JNull => false
  | JBool b => b
  | JNum z => negb (z =? 0)
  | JStr s => negb (String.eqb s "")
  | JArr _ | JObj _ => true
  end.

Definition index_key (i : nat) : string :=
  string_of_list_ascii (Json.print_int (Z.of_nat i)).

(** The properties that the spread [{...value}] copies. *)
Definition spread (value : json) : object :=
  match value with
  | JObj o => o
  | JArr items => imap (fun i x => (index_key i, x)) items
  | JStr s =>
      imap (fun i c => (index_key i, JStr (String c EmptyString)))
        (list_ascii_of_string s)
  | _ => []
  end.

(** [value?.k]: [undefined] on a value without the property. *)
Definition member (value : json) (k : string) : option json :=
  match value with
  | JObj o => obj_get k o
  | _ => None
  end.

(** Checks if the user has already seen instructions today:
    [state?.hasSeenInstructions ?? false]. *)
Definition hasSeenInstructionsToday (w : World) : json * World :=
  let '(state, w') := loadGameState JSON_parse w in
  (match state with
   | Some value =>
       match member value "hasSeenInstructions" with
       | None | Some JNull => JBool false
       | Some seen => seen
       end
   | None => JBool false
   end, w').

(** The minimal state of a first visit. *)
Definition firstVisit : object :=
  [ ("guesses", JArr []); ("currentClue", JNum 1);
    ("gameStatus", JStr "playing"); ("hasSeenInstructions", JBool true) ].

(** Marks that the user has seen instructions today. *)
Definition markInstructionsAsSeen (w : World) : World :=
  let '(state, w') := loadGameState JSON_parse w in
  match state with
  | Some value =>
      if truthy value
      then saveGameState JSON_stringify
             (obj_set "hasSeenInstructions" (JBool true) (spread value)) w'
      else saveGameState JSON_stringify firstVisit w'
  | None => saveGameState JSON_stringify firstVisit w'
  end.

End Json.
End Instructions.

Module Effects.
Import Platform storageUtils Colordle.
Section Json.
Variable JSON_parse : string -> option json.
Variable JSON_stringify : json -> string.

(** The object literal [{guesses, currentClue, gameStatus: gameState,
    hasSeenInstructions: hasSeenInstructionsToday()}] of the saving
    effect, [seen] being what the call returned. *)
Definition effectObject (s : State) (seen : json) : object :=
  [ ("guesses", JArr (map guessObject (guesses s)));
    ("currentClue", JNum (currentClue s));
    ("gameStatus", JStr (statusText (gameState s)));
    ("hasSeenInstructions", seen) ].

(** Save game state to localStorage whenever it changes; nothing during
    the initial load. *)
Definition saveEffect (isLoaded : bool) (s : State) (w : World) : World :=
  if negb isLoaded then w
  else
    let '(seen, w') := Instructions.hasSeenInstructionsToday JSON_parse w in
    saveGameState JSON_stringify (effectObject s seen) w'.

End Json.
End Effects.

(** ** Channels and cells *)

Module Channels.
Import JsNumber JsString colorUtils Palette.

Definition lower3 (groups : string * string * string) : string * string * string :=
  let '(g1, g2, g3) := groups in (toLowerCase g1, toLowerCase g2, toLowerCase g3).

(** The (row, col) pairs in the order the two loops visit them. *)
Definition grid_cells : list (Z * Z) :=
  flat_map (fun row => map (pair row) (range (Z.to_nat COLS) 0)) (range (Z.to_nat ROWS) 0).

(** The two characters [hslToHex] writes for one channel. *)
Definition twoHex (n : integral) : string := padStart 2 "0" (toString16 n).

(** The three channels [hslToHex] rounds before it formats them. *)
Definition hslChannels (h s l : number) : integral * integral * integral :=
  let s := div s (num 100) in
  let l := div l (num 100) in
  let c := mul (sub (num 1) (Math_abs (sub (mul (num 2) l) (num 1)))) s in
  let x := mul c (sub (num 1)
                   (Math_abs (sub (rem (div h (num 60)) (num 2)) (num 1)))) in
  let m := sub l (div c (num 2)) in
  let '(r, g, b) :=
    if leb (num 0) h && ltb h (num 60) then (c, x, num 0)
    else if leb (num 60) h && ltb h (num 120) then (x, c, num 0)
    else if leb (num 120) h && ltb h (num 180) then (num 0, c, x)
    else if leb (num 180) h && ltb h (num 240) then (num 0, x, c)
    else if leb (num 240) h && ltb h (num 300) then (x, num 0, c)
    else if leb (num 300) h && ltb h (num 360) then (c, num 0, x)
    else (num 0, num 0, num 0) in
  (Math_round (mul (add r m) (num 255)),
   Math_round (mul (add g m) (num 255)),
   Math_round (mul (add b m) (num 255))).

End Channels.

(** ** More sample worlds *)

Module Scenes.
Import Platform storageUtils Colordle Sample.

Definition today : string := "2025-11-03".
Definition midnight : string := "2025-11-04T00:00:01.000Z".

(** Today's record, the instructions not yet seen. *)
Definition unseen_props : object := (stateObject game false ++ [("date", JStr today)])%list.
Definition unseen_text : string := Json.stringify (JObj unseen_props).
Definition unseen_world : World := browser {[ STORAGE_KEY := unseen_text ]}.

Definition empty_world : World := browser {[ STORAGE_KEY := "" ]}.
Definition null_world : World := browser {[ STORAGE_KEY := "null" ]}.
Definition number_world : World := browser {[ STORAGE_KEY := "7" ]}.

(** A browser whose storage is full. *)
Definition full_world : World :=
  {| window := Some ∅; accepts := fun _ _ => false; now := morning; console := [] |}.

(** Rendering on the server. *)
Definition server : World :=
  {| window := None; accepts := fun _ _ => true; now := morning; console := [] |}.

End Scenes.

(** * Properties *)

Ltac dlia := Z.div_mod_to_equations; lia.

(** ** Binary64 arithmetic on integers

    Integers below 2^53 are numbers without rounding, and sums,
    differences and squares of such integers are computed exactly; the
    square roots of two integers below 2^18 compare as the integers do. *)

Section Binary64_facts.
Import JsNumber colorUtils Binary64.

Lemma digits2_pos_log2 p : Z.pos (digits2_pos p) = Z.log2 (Z.pos p) + 1.
Proof.
  induction p as [p IH | p IH |]; cbn [digits2_pos]; rewrite ?Pos2Z.inj_succ, ?IH.
  - change (Z.pos p~1) with (2 * Z.pos p + 1). rewrite Z.log2_succ_double by lia. lia.
  - change (Z.pos p~0) with (2 * Z.pos p). rewrite Z.log2_double by lia. lia.
  - reflexivity.
Qed.

Lemma iter_xO p d : Z.pos (Pos.iter xO p d) = Z.pos p * 2 ^ Z.pos d.
Proof.
  induction d as [| d IH] using Pos.peano_ind.
  - cbn. lia.
  - rewrite Pos.iter_succ, Pos2Z.inj_succ, Z.pow_succ_r by lia.
    change (Z.pos (Pos.iter xO p d)~0) with (2 * Z.pos (Pos.iter xO p d)). lia.
Qed.

Lemma iter_pos_Pos_iter {A} (f : A -> A) n x : SpecFloat.iter_pos f n x = Pos.iter f x n.
Proof.
  revert x. induction n as [n IH | n IH |]; intros x; cbn.
  - rewrite !IH. now rewrite <- !Pos.iter_swap.
  - now rewrite !IH.
  - reflexivity.
Qed.

Lemma shr_1_even m :
  shr_1 {| shr_m := 2 * Z.pos m; shr_r := false; shr_s := false |}
  = {| shr_m := Z.pos m; shr_r := false; shr_s := false |}.
Proof. reflexivity. Qed.

Lemma iter_shr_exact m d :
  SpecFloat.iter_pos shr_1 d {| shr_m := Z.pos m * 2 ^ Z.pos d; shr_r := false; shr_s := false |}
  = {| shr_m := Z.pos m; shr_r := false; shr_s := false |}.
Proof.
  rewrite iter_pos_Pos_iter.
  induction d as [| d IH] using Pos.peano_ind.
  - replace (Z.pos m * 2 ^ 1) with (2 * Z.pos m) by lia. reflexivity.
  - rewrite Pos.iter_succ, <- Pos.iter_swap.
    rewrite Pos2Z.inj_succ, Z.pow_succ_r by lia.
    replace (Z.pos m * (2 * 2 ^ Z.pos d)) with (2 * Z.pos (Z.to_pos (Z.pos m * 2 ^ Z.pos d))).
    + rewrite shr_1_even. rewrite Z2Pos.id by lia. exact IH.
    + rewrite Z2Pos.id by lia. lia.
Qed.

(** Rounding a 53-bit mantissa followed by [j] zero bits drops the zeros. *)
Lemma fexp_small e : -1074 <= e - 53 -> fexp prec emax e = e - 53.
Proof. unfold fexp, SpecFloat.emin, prec, emax. lia. Qed.

Lemma round_aux_exact s m j e :
  Z.pos (digits2_pos m) = 53 -> 0 <= j -> -1074 <= e -> e + j <= 971 ->
  binary_round_aux prec emax s (Z.pos m * 2 ^ j) e loc_Exact = S754_finite s m (e + j).
Proof.
  intros Hd Hj He Hmax.
  assert (Hdig : Zdigits2 (Z.pos m * 2 ^ j) = 53 + j).
  { assert (0 < 2 ^ j) by (apply Z.pow_pos_nonneg; lia).
    destruct (Z.pos m * 2 ^ j) as [| q | q] eqn:E; try lia.
    cbn [Zdigits2]. rewrite digits2_pos_log2, <- E.
    rewrite Z.log2_mul_pow2 by lia. rewrite digits2_pos_log2 in Hd. lia. }
  unfold binary_round_aux, shr_fexp. rewrite Hdig. clear Hdig.
  rewrite fexp_small by lia.
  replace (53 + j + e - 53 - e) with j by lia.
  unfold shr. cbn [shr_record_of_loc].
  destruct j as [| j | j]; [| | lia].
  - rewrite Z.pow_0_r, Z.mul_1_r. cbn [shr_m loc_of_shr_record round_nearest_even].
    cbn [Zdigits2]. rewrite Hd. rewrite fexp_small by lia.
    replace (53 + e - 53 - e) with 0 by lia.
    cbv beta iota zeta. cbn [shr_m].
    replace (e <=? emax - prec) with true by (unfold emax, prec; lia).
    now rewrite Z.add_0_r.
  - rewrite iter_shr_exact. cbn [shr_m loc_of_shr_record round_nearest_even].
    cbn [Zdigits2]. rewrite Hd. rewrite fexp_small by lia.
    replace (53 + (e + Z.pos j) - 53 - (e + Z.pos j)) with 0 by lia.
    cbv beta iota zeta. cbn [shr_m]. replace (e + Z.pos j <=? emax - prec) with true by (unfold emax, prec; lia).
    reflexivity.
Qed.

Lemma canon_mantissa_digits n :
  Z.pos (digits2_pos n) <= 53 ->
  Z.pos (digits2_pos (Z.to_pos (Z.pos n * 2 ^ (53 - Z.pos (digits2_pos n))))) = 53.
Proof.
  intros Hd. rewrite digits2_pos_log2.
  assert (0 < 2 ^ (53 - Z.pos (digits2_pos n))) by (apply Z.pow_pos_nonneg; lia).
  rewrite Z2Pos.id by lia.
  rewrite Z.log2_mul_pow2 by lia. rewrite digits2_pos_log2. lia.
Qed.

Lemma round_scaled s n k :
  Z.pos (digits2_pos n) <= 53 -> 0 <= k <= 1000 ->
  binary_round prec emax s (Z.to_pos (Z.pos n * 2 ^ k)) (- k) = canon s n.
Proof.
  intros Hd Hk.
  set (d := Z.pos (digits2_pos n)) in *.
  assert (Hpk : 0 < 2 ^ k) by (apply Z.pow_pos_nonneg; lia).
  assert (Hpc : 0 < 2 ^ (53 - d)) by (apply Z.pow_pos_nonneg; lia).
  assert (HdM : Z.pos (digits2_pos (Z.to_pos (Z.pos n * 2 ^ k))) = d + k).
  { rewrite digits2_pos_log2, Z2Pos.id by lia.
    rewrite Z.log2_mul_pow2 by lia. unfold d. rewrite digits2_pos_log2. lia. }
  unfold binary_round. rewrite HdM, fexp_small by lia.
  unfold shl_align.
  pose proof (canon_mantissa_digits n Hd) as Hc. fold d in Hc.
  destruct (d + k + - k - 53 - - k) as [| t | t] eqn:Et.
  - rewrite Z2Pos.id by lia.
    replace (Z.pos n * 2 ^ k)
      with (Z.pos (Z.to_pos (Z.pos n * 2 ^ (53 - d))) * 2 ^ 0).
    + rewrite round_aux_exact by lia. unfold canon. fold d. f_equal. lia.
    + rewrite Z2Pos.id by lia. replace k with (53 - d) by lia. lia.
  - rewrite Z2Pos.id by lia.
    replace (Z.pos n * 2 ^ k)
      with (Z.pos (Z.to_pos (Z.pos n * 2 ^ (53 - d))) * 2 ^ Z.pos t).
    + rewrite round_aux_exact by lia. unfold canon. fold d. f_equal. lia.
    + rewrite Z2Pos.id by lia. rewrite <- Z.mul_assoc, <- Z.pow_add_r by lia.
      f_equal. f_equal. lia.
  - rewrite iter_xO, Z2Pos.id by lia.
    replace (Z.pos n * 2 ^ k * 2 ^ Z.pos t)
      with (Z.pos (Z.to_pos (Z.pos n * 2 ^ (53 - d))) * 2 ^ 0).
    + rewrite round_aux_exact by lia. unfold canon. fold d. f_equal. lia.
    + rewrite Z2Pos.id by lia. rewrite <- !Z.mul_assoc, <- !Z.pow_add_r by lia.
      f_equal. f_equal. lia.
Qed.

Lemma num_pos n : Z.pos (digits2_pos n) <= 53 -> num (Z.pos n) = canon false n.
Proof.
  intros Hd. unfold num. cbn [binary_normalize].
  rewrite <- (round_scaled false n 0) by lia.
  rewrite Z.pow_0_r, Z.mul_1_r. reflexivity.
Qed.

Lemma num_neg n : Z.pos (digits2_pos n) <= 53 -> num (Z.neg n) = canon true n.
Proof.
  intros Hd. unfold num. cbn [binary_normalize].
  rewrite <- (round_scaled true n 0) by lia.
  rewrite Z.pow_0_r, Z.mul_1_r. reflexivity.
Qed.

Lemma digits_bound p : Z.pos p < 2 ^ 53 -> 1 <= Z.pos (digits2_pos p) <= 53.
Proof.
  intros H. rewrite digits2_pos_log2.
  pose proof (Z.log2_nonneg (Z.pos p)).
  assert (Z.log2 (Z.pos p) < 53) by (apply Z.log2_lt_pow2; lia). lia.
Qed.

(** The shape of a non-zero integer as a number. *)
Lemma num_finite z :
  z <> 0 -> Z.abs z < 2 ^ 53 ->
  exists m e, num z = S754_finite (z <? 0) m e
              /\ Z.pos m = Z.abs z * 2 ^ (- e) /\ -52 <= e <= 0
              /\ Z.pos (digits2_pos m) = 53
              /\ e = Z.log2 (Z.abs z) - 52.
Proof.
  intros Hz Hb.
  destruct z as [| p | p]; [congruence | |].
  - pose proof (digits_bound p ltac:(lia)) as Hd.
    rewrite num_pos by lia. unfold canon. eexists _, _.
    split; [reflexivity |].
    assert (0 < 2 ^ (53 - Z.pos (digits2_pos p))) by (apply Z.pow_pos_nonneg; lia).
    split; [| split; [lia | split; [apply canon_mantissa_digits; lia |]]].
    + rewrite Z2Pos.id by lia. cbn [Z.abs]. f_equal. f_equal. lia.
    + clear H. change (Z.abs (Z.pos p)) with (Z.pos p). rewrite digits2_pos_log2 in *. lia.
  - pose proof (digits_bound p ltac:(lia)) as Hd.
    rewrite num_neg by lia. unfold canon. eexists _, _.
    split; [reflexivity |].
    assert (0 < 2 ^ (53 - Z.pos (digits2_pos p))) by (apply Z.pow_pos_nonneg; lia).
    split; [| split; [lia | split; [apply canon_mantissa_digits; lia |]]].
    + rewrite Z2Pos.id by lia. cbn [Z.abs]. f_equal. f_equal. lia.
    + clear H. change (Z.abs (Z.neg p)) with (Z.pos p). rewrite digits2_pos_log2 in *. lia.
Qed.

Lemma normalize_scaled z k :
  Z.abs z < 2 ^ 53 -> 0 <= k <= 1000 ->
  binary_normalize prec emax (z * 2 ^ k) (- k) false = num z.
Proof.
  intros Hb Hk.
  assert (Hpk : 0 < 2 ^ k) by (apply Z.pow_pos_nonneg; lia).
  destruct z as [| p | p].
  - reflexivity.
  - pose proof (digits_bound p ltac:(lia)) as Hd.
    rewrite num_pos by lia. rewrite <- (round_scaled false p k) by lia.
    destruct (Z.pos p * 2 ^ k) eqn:E; try lia. reflexivity.
  - pose proof (digits_bound p ltac:(lia)) as Hd.
    rewrite num_neg by lia. rewrite <- (round_scaled true p k) by lia.
    assert (E' : Z.neg p * 2 ^ k = - (Z.pos p * 2 ^ k)) by lia.
    rewrite E'. destruct (Z.pos p * 2 ^ k) eqn:E; try lia. reflexivity.
Qed.

Lemma aligned s m e ez z :
  Z.pos m = Z.abs z * 2 ^ (- e) -> s = (z <? 0) -> ez <= e <= 0 ->
  cond_Zopp s (Z.pos (fst (shl_align m e ez))) = z * 2 ^ (- ez).
Proof.
  intros Hm -> He.
  assert (Hv : Z.pos (fst (shl_align m e ez)) = Z.pos m * 2 ^ (e - ez)).
  { unfold shl_align. destruct (ez - e) as [| t | t] eqn:Et; cbn [fst]; try lia.
    - replace (e - ez) with 0 by lia. lia.
    - rewrite iter_xO. f_equal. f_equal. lia. }
  rewrite Hv, Hm, <- Z.mul_assoc, <- Z.pow_add_r by lia.
  replace (- e + (e - ez)) with (- ez) by lia.
  unfold cond_Zopp. destruct (Z.ltb_spec z 0); lia.
Qed.

Lemma add_exact x y :
  Z.abs x < 2 ^ 53 -> Z.abs y < 2 ^ 53 -> Z.abs (x + y) < 2 ^ 53 ->
  add (num x) (num y) = num (x + y).
Proof.
  intros Hx Hy Hxy.
  destruct (Z.eq_dec x 0) as [-> | Hx0].
  { rewrite Z.add_0_l. destruct (Z.eq_dec y 0) as [-> | Hy0]; [reflexivity |].
    destruct (num_finite y Hy0 Hy) as (m & e & -> & _). reflexivity. }
  destruct (Z.eq_dec y 0) as [-> | Hy0].
  { rewrite Z.add_0_r. destruct (num_finite x Hx0 Hx) as (m & e & -> & _). reflexivity. }
  destruct (num_finite x Hx0 Hx) as (mx & ex & -> & Hmx & Hex & _).
  destruct (num_finite y Hy0 Hy) as (my & ey & -> & Hmy & Hey & _).
  unfold add, SFadd.
  rewrite (aligned _ mx ex _ x), (aligned _ my ey _ y) by (auto; lia).
  rewrite <- Z.mul_add_distr_r.
  rewrite <- (normalize_scaled (x + y) (- Z.min ex ey)) by lia.
  now rewrite Z.opp_involutive.
Qed.

Lemma sub_exact x y :
  Z.abs x < 2 ^ 53 -> Z.abs y < 2 ^ 53 -> Z.abs (x - y) < 2 ^ 53 ->
  sub (num x) (num y) = num (x - y).
Proof.
  intros Hx Hy Hxy.
  destruct (Z.eq_dec y 0) as [-> | Hy0].
  { rewrite Z.sub_0_r. destruct (Z.eq_dec x 0) as [-> | Hx0]; [reflexivity |].
    destruct (num_finite x Hx0 Hx) as (m & e & -> & _). reflexivity. }
  destruct (Z.eq_dec x 0) as [-> | Hx0].
  { destruct y as [| p | p]; [congruence | |];
      [change (0 - Z.pos p) with (Z.neg p) | change (0 - Z.neg p) with (Z.pos p)];
      pose proof (digits_bound p ltac:(lia));
      rewrite ?num_pos, ?num_neg by lia; reflexivity. }
  destruct (num_finite x Hx0 Hx) as (mx & ex & -> & Hmx & Hex & _).
  destruct (num_finite y Hy0 Hy) as (my & ey & -> & Hmy & Hey & _).
  unfold sub, SFsub.
  rewrite (aligned _ mx ex _ x), (aligned _ my ey _ y) by (auto; lia).
  rewrite <- Z.mul_sub_distr_r.
  rewrite <- (normalize_scaled (x - y) (- Z.min ex ey)) by lia.
  now rewrite Z.opp_involutive.
Qed.

Lemma digits_range m :
  Z.pos (digits2_pos m) = 53 -> 2 ^ 52 <= Z.pos m < 2 ^ 53.
Proof.
  rewrite digits2_pos_log2. intros H.
  pose proof (Z.log2_spec (Z.pos m) ltac:(lia)) as Hs.
  replace (Z.log2 (Z.pos m)) with 52 in Hs by lia. exact Hs.
Qed.

Lemma square_exact x :
  Z.abs x < 2 ^ 26 -> mul (num x) (num x) = num (x * x).
Proof.
  intros Hx.
  destruct (Z.eq_dec x 0) as [-> | Hx0]; [reflexivity |].
  assert (Hx53 : Z.abs x < 2 ^ 53) by lia.
  assert (Hsq : 0 < x * x < 2 ^ 53) by nia.
  destruct (num_finite x Hx0 Hx53) as (m & e & -> & Hm & He & Hdm & _).
  destruct (num_finite (x * x) ltac:(lia) ltac:(lia)) as (c & e2 & -> & Hc & He2 & Hdc & _).
  unfold mul, SFmul. rewrite xorb_nilpotent.
  replace (x * x <? 0) with false by lia.
  apply digits_range in Hdm. pose proof (digits_range c Hdc) as Hrc.
  replace (Z.abs (x * x)) with (Z.abs x * Z.abs x) in Hc by lia.
  assert (Hp : 0 < 2 ^ (- e)) by (apply Z.pow_pos_nonneg; lia).
  assert (Hj : 0 <= e2 - (e + e)).
  { destruct (Z.le_gt_cases (e + e) e2) as [| Hgt]; [lia | exfalso].
    assert (Hsplit : 2 ^ (- e2) = 2 ^ (- e) * 2 ^ (- e) * 2 ^ (e + e - e2)).
    { rewrite <- !Z.pow_add_r by lia. f_equal. lia. }
    assert (Hp3 : 2 <= 2 ^ (e + e - e2)).
    { change 2 with (2 ^ 1) at 1. apply Z.pow_le_mono_r; lia. }
    rewrite Hsplit in Hc.
    assert (Hmm : Z.pos c = Z.pos m * Z.pos m * 2 ^ (e + e - e2)) by (rewrite Hc, Hm; ring).
    assert (2 ^ 52 * 2 ^ 52 <= Z.pos m * Z.pos m) by nia.
    nia. }
  replace (Z.pos (m * m)) with (Z.pos c * 2 ^ (e2 - (e + e))).
  - rewrite round_aux_exact by lia. f_equal. lia.
  - rewrite Pos2Z.inj_mul, Hm, Hc.
    assert (Hsplit : 2 ^ (- e) * 2 ^ (- e) = 2 ^ (- e2) * 2 ^ (e2 - (e + e))).
    { rewrite <- !Z.pow_add_r by lia. f_equal. lia. }
    transitivity (Z.abs x * Z.abs x * (2 ^ (- e2) * 2 ^ (e2 - (e + e)))); [ring |].
    rewrite <- Hsplit. ring.
Qed.

(** *** Square roots *)

Lemma round_loc q l :
  l = loc_Exact \/ l = loc_Inexact Lt \/ l = loc_Inexact Gt ->
  round_nearest_even (shr_m (shr_record_of_loc q l))
    (loc_of_shr_record (shr_record_of_loc q l))
  = match l with loc_Inexact Gt => q + 1 | _ => q end.
Proof. intros [-> | [-> | ->]]; reflexivity. Qed.

Lemma digits_of_range z : 2 ^ 52 <= z < 2 ^ 53 -> Zdigits2 z = 53.
Proof.
  intros H. destruct z as [| p | p]; try lia.
  cbn [Zdigits2]. rewrite digits2_pos_log2.
  rewrite (Z.log2_unique (Z.pos p) 52); lia.
Qed.

Lemma sqrt_finite m e :
  Z.pos (digits2_pos m) = 53 -> -1000 <= e <= 0 ->
  exists R, Z.pos R = sqrt_mantissa m e /\ 2 ^ 52 <= Z.pos R < 2 ^ 53
    /\ SFsqrt prec emax (S754_finite false m e) = S754_finite false R (sqrt_exponent e).
Proof.
  intros Hd He.
  pose proof (digits_range m Hd) as Hm.
  unfold SFsqrt, SFsqrt_core_binary, sqrt_mantissa.
  cbn [Zdigits2]. rewrite Hd, !Z.div2_div.
  rewrite fexp_small by dlia.
  replace (Z.min ((53 + e + 1) / 2 - 53) (e / 2)) with (sqrt_exponent e)
    by (unfold sqrt_exponent; dlia).
  set (e' := sqrt_exponent e).
  assert (Hs : e - 2 * e' = 52 \/ e - 2 * e' = 53) by (unfold e', sqrt_exponent; dlia).
  assert (Hm' : 2 ^ 104 <= Z.pos m * 2 ^ (e - 2 * e') < 2 ^ 106).
  { destruct Hs as [-> | ->]; lia. }
  assert (Hshift : match e - 2 * e' with
                   | 0 => Z.pos m
                   | Z.pos _ => Z.shiftl (Z.pos m) (e - 2 * e')
                   | Z.neg _ => 0
                   end = Z.pos m * 2 ^ (e - 2 * e')).
  { destruct (e - 2 * e') eqn:E; try lia. rewrite Z.shiftl_mul_pow2; lia. }
  rewrite Hshift. clear Hshift.
  pose proof (Z.sqrtrem_spec (Z.pos m * 2 ^ (e - 2 * e')) ltac:(lia)) as Hspec.
  destruct (Z.sqrtrem (Z.pos m * 2 ^ (e - 2 * e'))) as [q r].
  destruct Hspec as [Hqr Hr].
  assert (Hq : 2 ^ 52 <= q < 2 ^ 53) by nia.
  assert (HR : 2 ^ 52 <= (if r <=? q then q else q + 1) < 2 ^ 53).
  { destruct (Z.leb_spec r q); [lia |].
    destruct Hs as [Hs | Hs]; rewrite Hs in *; nia. }
  exists (Z.to_pos (if r <=? q then q else q + 1)).
  rewrite Z2Pos.id by lia. split; [reflexivity |]. split; [exact HR |].
  unfold binary_round_aux, shr_fexp.
  rewrite (digits_of_range q Hq).
  rewrite fexp_small by (unfold e', sqrt_exponent; dlia).
  replace (53 + e' - 53 - e') with 0 by lia.
  unfold shr at 1. cbv beta iota zeta.
  rewrite round_loc.
  2:{ destruct (r =? 0); [now left |]. destruct (r <=? q); auto. }
  assert (Hround : match (if r =? 0 then loc_Exact
                          else loc_Inexact (if r <=? q then Lt else Gt)) with
                   | loc_Inexact Gt => q + 1
                   | _ => q
                   end = (if r <=? q then q else q + 1)).
  { destruct (Z.eqb_spec r 0) as [-> | _].
    - replace (0 <=? q) with true by lia. reflexivity.
    - destruct (r <=? q); reflexivity. }
  rewrite Hround. clear Hround.
  rewrite (digits_of_range _ HR).
  rewrite fexp_small by (unfold e', sqrt_exponent; dlia).
  replace (53 + e' - 53 - e') with 0 by lia.
  unfold shr. cbn [shr_record_of_loc shr_m].
  destruct (if r <=? q then q else q + 1) as [| R | R] eqn:ER; try lia.
  cbn [Z.to_pos].
  replace (e' <=? emax - prec) with true
    by (unfold emax, prec, e', sqrt_exponent; dlia).
  reflexivity.
Qed.

Lemma ltb_finite R1 e1 R2 e2 :
  ltb (S754_finite false R1 e1) (S754_finite false R2 e2)
  = (e1 <? e2) || ((e1 =? e2) && (Z.pos R1 <? Z.pos R2)).
Proof.
  unfold ltb, SFltb, SFcompare.
  destruct (Z.compare_spec e1 e2) as [-> | H | H].
  - rewrite Z.ltb_irrefl, Z.eqb_refl. cbn [orb andb].
    change (Pos.compare_cont Eq R1 R2) with (Pos.compare R1 R2).
    destruct (Pos.compare_spec R1 R2) as [-> | H | H].
    + now rewrite Z.ltb_irrefl.
    + symmetry. apply Z.ltb_lt. lia.
    + symmetry. apply Z.ltb_ge. lia.
  - replace (e1 <? e2) with true by lia. reflexivity.
  - replace (e1 <? e2) with false by lia. replace (e1 =? e2) with false by lia.
    reflexivity.
Qed.

Lemma sqrt_num x :
  0 < x < 2 ^ 53 ->
  exists R, Math_sqrt (num x) = S754_finite false R (root_exponent x)
            /\ Z.pos R = root_mantissa x.
Proof.
  intros Hx.
  destruct (num_finite x ltac:(lia) ltac:(lia)) as (m & e & Hn & Hm & He & Hd & Hl).
  rewrite Z.abs_eq in * by lia.
  destruct (sqrt_finite m e Hd ltac:(lia)) as (R & HR & _ & Hs).
  exists R. rewrite Hn. replace (x <? 0) with false by lia.
  unfold Math_sqrt. rewrite Hs.
  assert (HE : sqrt_exponent e = root_exponent x).
  { unfold sqrt_exponent, root_exponent. rewrite Hl. f_equal. f_equal. lia. }
  rewrite HE. split; [reflexivity |].
  rewrite HR. unfold sqrt_mantissa, root_mantissa. rewrite HE, Hm.
  rewrite <- Z.mul_assoc, <- Z.pow_add_r.
  - replace (- e + (e - 2 * root_exponent x)) with (- 2 * root_exponent x) by lia.
    reflexivity.
  - lia.
  - unfold root_exponent. rewrite Hl in He. dlia.
Qed.

Lemma root_mantissa_lt x y :
  0 < x -> x < y -> y < 2 ^ 18 -> root_exponent x = root_exponent y ->
  root_mantissa x < root_mantissa y.
Proof.
  intros Hx Hxy Hy HE. unfold root_mantissa. rewrite <- HE.
  set (P := 2 ^ (- 2 * root_exponent x)).
  assert (HP : 2 ^ 87 <= P).
  { apply Z.pow_le_mono_r; [lia |].
    assert (Z.log2 x < 18) by (apply Z.log2_lt_pow2; lia).
    pose proof (Z.log2_nonneg x). unfold root_exponent. dlia. }
  assert (Hgap : x * P + P <= y * P) by nia.
  pose proof (Z.sqrtrem_spec (x * P) ltac:(nia)) as Hsx.
  pose proof (Z.sqrtrem_spec (y * P) ltac:(nia)) as Hsy.
  destruct (Z.sqrtrem (x * P)) as [qx rx], (Z.sqrtrem (y * P)) as [qy ry].
  destruct Hsx as [Hqx Hrx], Hsy as [Hqy Hry].
  assert (Hbx : qx < 2 ^ 53).
  { assert (x * P < 2 ^ 106); [| nia].
    pose proof (Z.log2_spec x Hx) as [_ Hux].
    pose proof (Z.log2_nonneg x) as HL.
    assert (HL18 : Z.log2 x < 18) by (apply Z.log2_lt_pow2; lia).
    assert (HP' : P <= 2 ^ (105 - Z.log2 x)).
    { apply Z.pow_le_mono_r; [lia |]. unfold root_exponent. dlia. }
    assert (Hmul : 2 ^ Z.succ (Z.log2 x) * 2 ^ (105 - Z.log2 x) = 2 ^ 106).
    { rewrite <- Z.pow_add_r by lia. f_equal. lia. }
    assert (0 < 2 ^ (105 - Z.log2 x)) by (apply Z.pow_pos_nonneg; lia).
    nia. }
  assert (qx + 2 <= qy).
  { destruct (Z.le_gt_cases (qx + 2) qy) as [| Hlt]; [assumption | exfalso].
    assert (qy * qy + 2 * qy <= (qx + 1) * (qx + 1) + 2 * (qx + 1)) by nia.
    nia. }
  destruct (rx <=? qx), (ry <=? qy); lia.
Qed.

Lemma root_exponent_mono x y :
  0 < x -> x <= y -> root_exponent x <= root_exponent y.
Proof.
  intros Hx Hxy. unfold root_exponent.
  pose proof (Z.log2_le_mono x y Hxy). dlia.
Qed.

Lemma sqrt_zero : Math_sqrt (num 0) = S754_zero false.
Proof. reflexivity. Qed.

(** Comparing the roots of two integers below 2^18 is comparing the
    integers. *)
Lemma sqrt_ltb x y :
  0 <= x < 2 ^ 18 -> 0 <= y < 2 ^ 18 ->
  ltb (Math_sqrt (num x)) (Math_sqrt (num y)) = (x <? y).
Proof.
  intros Hx Hy.
  assert (Hlt : forall a b, 0 < a -> a < b -> b < 2 ^ 18 ->
                ltb (Math_sqrt (num a)) (Math_sqrt (num b)) = true
                /\ ltb (Math_sqrt (num b)) (Math_sqrt (num a)) = false).
  { intros a b Ha Hab Hb.
    destruct (sqrt_num a ltac:(lia)) as (Ra & -> & HRa).
    destruct (sqrt_num b ltac:(lia)) as (Rb & -> & HRb).
    rewrite !ltb_finite, HRa, HRb.
    pose proof (root_exponent_mono a b Ha ltac:(lia)) as He.
    destruct (Z.eq_dec (root_exponent a) (root_exponent b)) as [E | E].
    - pose proof (root_mantissa_lt a b Ha Hab Hb E). rewrite E. lia.
    - lia. }
  destruct (Z.eq_dec x 0) as [-> | Hx0]; destruct (Z.eq_dec y 0) as [-> | Hy0].
  - reflexivity.
  - destruct (sqrt_num y ltac:(lia)) as (R & -> & _). rewrite sqrt_zero.
    symmetry. apply Z.ltb_lt. lia.
  - destruct (sqrt_num x ltac:(lia)) as (R & -> & _). rewrite sqrt_zero.
    symmetry. apply Z.ltb_ge. lia.
  - destruct (Z.lt_trichotomy x y) as [H | [-> | H]].
    + destruct (Hlt x y) as [-> _]; lia.
    + destruct (sqrt_num y ltac:(lia)) as (R & -> & _).
      rewrite ltb_finite. lia.
    + destruct (Hlt y x) as [_ ->]; lia.
Qed.

Lemma sqrt_ltb_infinity x :
  0 <= x < 2 ^ 53 -> ltb (Math_sqrt (num x)) Infinity_ = true.
Proof.
  intros Hx. destruct (Z.eq_dec x 0) as [-> | Hx0]; [reflexivity |].
  destruct (sqrt_num x ltac:(lia)) as (R & -> & _). reflexivity.
Qed.

End Binary64_facts.

(** ** Position lookup *)

Section Lookup.
Import JsNumber JsString colorUtils Binary64 Nearest Rgb.

Lemma hex_value_range c : is_hex c = true -> 0 <= hex_value c <= 15.
Proof.
  unfold is_hex, hex_value. generalize (code c). intros n H.
  destruct (Z.leb_spec n 57), (Z.leb_spec n 70); lia.
Qed.

Lemma six_hex_groups s g1 g2 g3 :
  six_hex s = Some (g1, g2, g3) ->
  0 <= parseInt16 g1 <= 255 /\ 0 <= parseInt16 g2 <= 255 /\ 0 <= parseInt16 g3 <= 255.
Proof.
  unfold six_hex.
  destruct (list_ascii_of_string s) as [| c1 [| c2 [| c3 [| c4 [| c5 [| c6 [| c7 l]]]]]]];
    try discriminate.
  destruct (forallb is_hex [c1; c2; c3; c4; c5; c6]) eqn:Hh; [| discriminate].
  intros [= <- <- <-].
  cbn [forallb] in Hh. rewrite !andb_true_iff in Hh.
  destruct Hh as (H1 & H2 & H3 & H4 & H5 & H6 & _).
  apply hex_value_range in H1, H2, H3, H4, H5, H6.
  unfold parseInt16. cbn [list_ascii_of_string fold_left]. lia.
Qed.

Lemma hexToRgb_gamut hex : in_gamut (hexToRgb hex).
Proof.
  unfold hexToRgb.
  destruct (hex_regex_exec hex) as [[[g1 g2] g3] |] eqn:E.
  - assert (H : six_hex hex = Some (g1, g2, g3)
                \/ exists rest, six_hex rest = Some (g1, g2, g3)).
    { unfold hex_regex_exec in E.
      destruct hex as [| c rest]; [now left |].
      destruct (Ascii.eqb_spec c "#") as [-> | Hc].
      - destruct (six_hex rest) as [gs |] eqn:Er; [right | now left].
        exists rest. congruence.
      - left. destruct c as [[] [] [] [] [] [] [] []]; try exact E. congruence. }
    destruct H as [H | [rest H]]; apply six_hex_groups in H; exact H.
  - unfold in_gamut. cbn. lia.
Qed.

Lemma distance2_range a t :
  in_gamut a -> in_gamut t -> 0 <= distance2 a t < 2 ^ 18.
Proof. unfold in_gamut, distance2. intros (? & ? & ?) (? & ? & ?). nia. Qed.

Lemma distance_sqrt a t :
  in_gamut a -> in_gamut t -> distance a t = Math_sqrt (num (distance2 a t)).
Proof.
  intros Ha Ht. pose proof (distance2_range a t Ha Ht) as Hd.
  unfold in_gamut, distance2 in *. destruct Ha as (? & ? & ?), Ht as (? & ? & ?).
  unfold distance, Math_pow2.
  rewrite !sub_exact by lia. rewrite !square_exact by lia.
  rewrite !add_exact by nia. f_equal. f_equal. ring.
Qed.

Section Scan.
Variable targetRgb : RGB.
Hypothesis target_gamut : in_gamut targetRgb.

Local Abbreviation key := (rgb_key targetRgb).

Lemma key_range color : 0 <= key color < 2 ^ 18.
Proof. unfold rgb_key. apply distance2_range; [apply hexToRgb_gamut | exact target_gamut]. Qed.

Lemma scan_step_as_scan st color idx :
  tracked (snd st) ->
  scan_step targetRgb (as_scan st) color idx
  = as_scan (if below (snd st) (key color) then (idx, Some (key color)) else st).
Proof.
  intros Ht. unfold scan_step.
  rewrite (distance_sqrt _ _ (hexToRgb_gamut color) target_gamut).
  fold (rgb_key targetRgb color).
  pose proof (key_range color) as Hk.
  destruct st as [i [m |]]; cbn [as_scan snd fst minDistance below tracked] in *.
  - rewrite sqrt_ltb by lia. destruct (key color <? m); reflexivity.
  - rewrite sqrt_ltb_infinity by lia. reflexivity.
Qed.

Lemma forEach_from_as_scan colors : forall idx st,
  tracked (snd st) ->
  forEach_from targetRgb idx colors (as_scan st)
  = as_scan (nearest_from key idx colors st).
Proof.
  induction colors as [| color rest IH]; intros idx st Ht; cbn [forEach_from nearest_from].
  - reflexivity.
  - rewrite scan_step_as_scan by exact Ht. apply IH.
    destruct (below (snd st) (key color)); [apply key_range | exact Ht].
Qed.

End Scan.

(** The integer scan keeps the first least key. *)
Lemma nearest_from_spec (key : string -> Z) (colors : list string) :
  forall idx i0 m0,
  let st := nearest_from key idx colors (i0, m0) in
  (st = (i0, m0)
   /\ forall j y, colors !! j = Some y -> below m0 (key y) = false)
  \/ (exists j x, colors !! j = Some x /\ st = ((idx + j)%nat, Some (key x))
       /\ below m0 (key x) = true
       /\ forall j' y, colors !! j' = Some y ->
            key x <= key y /\ ((j' < j)%nat -> key x < key y)).
Proof.
  induction colors as [| c rest IH]; intros idx i0 m0; cbn [nearest_from snd].
  - left. split; [reflexivity |]. intros j y H. discriminate.
  - destruct (below m0 (key c)) eqn:Hb.
    + right.
      destruct (IH (S idx) idx (Some (key c))) as [[Hst Hall] | (j & x & Hj & Hst & Hbx & Hmin)].
      * exists 0%nat, c. split; [reflexivity |]. split; [rewrite Hst; f_equal; lia |].
        split; [exact Hb |]. intros [| j'] y Hy; cbn in Hy.
        -- injection Hy as <-. lia.
        -- specialize (Hall _ _ Hy). cbn in Hall. lia.
      * exists (S j), x. split; [exact Hj |]. split; [rewrite Hst; f_equal; lia |].
        cbn in Hbx. split.
        -- destruct m0 as [m |]; cbn in *; lia.
        -- intros [| j'] y Hy; cbn in Hy.
           ++ injection Hy as <-. lia.
           ++ specialize (Hmin _ _ Hy). lia.
    + destruct (IH (S idx) i0 m0) as [[Hst Hall] | (j & x & Hj & Hst & Hbx & Hmin)].
      * left. split; [exact Hst |]. intros [| j'] y Hy; cbn in Hy.
        -- injection Hy as <-. exact Hb.
        -- eapply Hall; eauto.
      * right. exists (S j), x. split; [exact Hj |]. split; [rewrite Hst; f_equal; lia |].
        split; [exact Hbx |]. intros [| j'] y Hy; cbn in Hy.
        -- injection Hy as <-. destruct m0 as [m |]; cbn in *; [lia | discriminate].
        -- specialize (Hmin _ _ Hy). lia.
Qed.

Lemma nearest_index colors targetColor :
  let d x := distance2 (hexToRgb x) (hexToRgb targetColor) in
  let i := closestIndex (forEach_from (hexToRgb targetColor) 0 colors
                           {| closestIndex := 0; minDistance := Infinity_ |}) in
  match colors !! i with
  | Some x => forall j y, colors !! j = Some y -> d x <= d y /\ ((j < i)%nat -> d x < d y)
  | None => colors = [] /\ i = 0%nat
  end.
Proof.
  cbv zeta.
  change {| closestIndex := 0; minDistance := Infinity_ |} with (as_scan (0%nat, None)).
  rewrite (forEach_from_as_scan _ (hexToRgb_gamut targetColor)) by exact I.
  destruct (nearest_from_spec (rgb_key (hexToRgb targetColor)) colors 0 0%nat None)
    as [[Hst Hall] | (j & x & Hj & Hst & _ & Hmin)].
  - rewrite Hst. cbn [as_scan closestIndex fst].
    destruct colors as [| c rest]; [now split |].
    specialize (Hall 0%nat c eq_refl). discriminate.
  - rewrite Hst. cbn [as_scan closestIndex fst Nat.add]. rewrite Hj. exact Hmin.
Qed.

(** ** The pattern does not see letter case *)

Lemma six_hex_None s : six_hex s = None <-> six_ok (list_ascii_of_string s) = false.
Proof.
  unfold six_hex, six_ok.
  destruct (list_ascii_of_string s) as [| c1 [| c2 [| c3 [| c4 [| c5 [| c6 [| c7 l]]]]]]];
    try (split; reflexivity).
  change (length [c1; c2; c3; c4; c5; c6] =? 6)%nat with true. rewrite andb_true_l.
  destruct (forallb is_hex [c1; c2; c3; c4; c5; c6]); split; congruence.
Qed.


Lemma is_hex_lower c : is_hex (lower_char c) = is_hex c.
Proof. destruct c as [[] [] [] [] [] [] [] []]; reflexivity. Qed.

Lemma sharp_lower c : lower_char c = "#"%char <-> c = "#"%char.
Proof. destruct c as [[] [] [] [] [] [] [] []]; cbv; split; congruence. Qed.

Lemma list_ascii_map_string f s :
  list_ascii_of_string (map_string f s) = map f (list_ascii_of_string s).
Proof. induction s as [| c s IH]; cbn; [reflexivity | now rewrite IH]. Qed.







(** *** The conversion the design names *)

Lemma digit_hex_value c :
  digit c = if is_hex c then Some (hex_value c) else None.
Proof. destruct c as [[] [] [] [] [] [] [] []]; vm_compute; reflexivity. Qed.

Lemma channel_parseInt16 c1 c2 :
  channel c1 c2
  = if is_hex c1 && is_hex c2 then Some (parseInt16 (String c1 (String c2 ""))) else None.
Proof.
  unfold channel. rewrite !digit_hex_value.
  destruct (is_hex c1), (is_hex c2); reflexivity.
Qed.

Lemma of_digits_six_hex s :
  of_digits (list_ascii_of_string s)
  = match six_hex s with
    | Some (g1, g2, g3) =>
        Some {| r := parseInt16 g1; g := parseInt16 g2; b := parseInt16 g3 |}
    | None => None
    end.
Proof.
  unfold six_hex, of_digits.
  destruct (list_ascii_of_string s) as [| c1 [| c2 [| c3 [| c4 [| c5 [| c6 [| c7 l]]]]]]];
    try reflexivity.
  rewrite !channel_parseInt16. cbn [forallb].
  destruct (is_hex c1), (is_hex c2), (is_hex c3), (is_hex c4), (is_hex c5), (is_hex c6);
    reflexivity.
Qed.

Lemma six_hex_sharp rest : six_hex (String "#" rest) = None.
Proof.
  unfold six_hex. cbn [list_ascii_of_string].
  destruct (list_ascii_of_string rest) as [| c2 [| c3 [| c4 [| c5 [| c6 [| c7 l]]]]]];
    reflexivity.
Qed.

(** The conversion of the code is the conversion of the design, on every
    text. *)
Lemma hexToRgb_rgb_spec s : hexToRgb s = rgb_spec s.
Proof.
  unfold hexToRgb, rgb_spec, colour_spec.
  destruct s as [| c rest].
  - reflexivity.
  - destruct (Ascii.eqb_spec c "#") as [-> | Hc].
    + cbn [hex_regex_exec list_ascii_of_string]. rewrite of_digits_six_hex.
      destruct (six_hex rest) as [[[g1 g2] g3] |]; [reflexivity |].
      now rewrite six_hex_sharp.
    + assert (E : hex_regex_exec (String c rest) = six_hex (String c rest)).
      { cbn [hex_regex_exec].
        destruct c as [[] [] [] [] [] [] [] []]; try reflexivity. now destruct Hc. }
      rewrite E.
      assert (E' : match list_ascii_of_string (String c rest) with
                   | "#"%char :: l => of_digits l
                   | l => of_digits l
                   end = of_digits (list_ascii_of_string (String c rest))).
      { cbn [list_ascii_of_string].
        destruct c as [[] [] [] [] [] [] [] []]; try reflexivity. now destruct Hc. }
      rewrite E', of_digits_six_hex.
      destruct (six_hex (String c rest)) as [[[g1 g2] g3] |]; reflexivity.
Qed.


(** C4: when [c] occurs in the grid up to letter case, the result is the
    position of its first occurrence, row = index div COLS and
    col = index mod COLS, the entry at that index being [c] up to letter
    case; when it does not occur, the result is the position of the
    first entry at the least Euclidean distance from [c] in RGB space
    (least squared distance, strictly less than at every earlier index),
    the point of RGB space a text stands for being the one [rgb_spec]
    reads from its six digits; on the empty grid the result is the
    position of index 0. *)
Theorem findColorPosition_spec (colors : list string) (c : string) :
  let same x := toLowerCase x = toLowerCase c in
  let d x := distance2 (rgb_spec x) (rgb_spec c) in
  (forall i x,
      colors !! i = Some x -> same x ->
      (forall j y, colors !! j = Some y -> (j < i)%nat -> ~ same y) ->
      findColorPosition colors c
      = {| row := Z.of_nat i / COLS; col := Z.of_nat i mod COLS |})
  /\ (Forall (fun x => ~ same x) colors ->
      exists i,
        findColorPosition colors c
        = {| row := Z.of_nat i / COLS; col := Z.of_nat i mod COLS |}
        /\ match colors !! i with
           | Some x =>
               forall j y, colors !! j = Some y ->
                           d x <= d y /\ ((j < i)%nat -> d x < d y)
           | None => colors = [] /\ i = 0%nat
           end)
  /\ findColorPosition [] c = {| row := 0; col := 0 |}.
Proof.
  intros same d. split; [| split].
  - intros i x Hi Hx Hfirst.
    assert (E : findIndex_ci colors c = Some i).
    { unfold findIndex_ci.
      rewrite (proj2 (list_find_Some _ colors i x)); [reflexivity |].
      split; [exact Hi |]. split; [exact Hx |]. exact Hfirst. }
    unfold findColorPosition. rewrite E. reflexivity.
  - intros Hnone.
    assert (E : findIndex_ci colors c = None).
    { unfold findIndex_ci. rewrite (proj2 (list_find_None _ colors)); [reflexivity |].
      exact Hnone. }
    unfold findColorPosition. rewrite E.
    eexists. split; [reflexivity |].
    pose proof (nearest_index colors c) as H. cbv zeta in H.
    destruct (colors !! _) as [x |]; [| exact H].
    intros j y Hj. unfold d. rewrite <- !hexToRgb_rgb_spec. exact (H j y Hj).
  - reflexivity.
Qed.


End Lookup.


(** ** Proximity *)

Section Proximity.
Import colorUtils.

Lemma isWithinProximity_chebyshev a b maxDistance :
  isWithinProximity a b maxDistance
  = (chebyshev a b <=? maxDistance) && (chebyshev a b >? 0).
Proof. reflexivity. Qed.

Lemma chebyshev_rows_cols a b :
  chebyshev a b = Z.max (Z.abs (row a - row b)) (Z.abs (col a - col b)).
Proof. unfold chebyshev. apply Z.max_comm. Qed.

Lemma chebyshev_sym a b : chebyshev a b = chebyshev b a.
Proof. unfold chebyshev. lia. Qed.

(** C3: [isWithinProximity a b maxDistance] is true exactly when the
    Chebyshev distance max(|a.row - b.row|, |a.col - b.col|) is positive
    and at most [maxDistance]; it is false at distance 0 and beyond
    [maxDistance], and it is symmetric in the two positions. *)
Theorem isWithinProximity_spec (a b : Position) (maxDistance : Z) :
  let d := Z.max (Z.abs (row a - row b)) (Z.abs (col a - col b)) in
  (isWithinProximity a b maxDistance = true <-> 0 < d <= maxDistance)
  /\ (d = 0 -> isWithinProximity a b maxDistance = false)
  /\ (maxDistance < d -> isWithinProximity a b maxDistance = false)
  /\ isWithinProximity a b maxDistance = isWithinProximity b a maxDistance.
Proof.
  cbv zeta. rewrite <- chebyshev_rows_cols.
  rewrite !isWithinProximity_chebyshev, (chebyshev_sym b a).
  repeat split; try lia.
Qed.

End Proximity.

(** ** The session state machine *)

Section Session.
Import JsString colorUtils Colordle.

Lemma handleColorClick_refused s color :
  gameState s <> playing \/ (3 <= length (guesses s))%nat ->
  handleColorClick s color = (s, []).
Proof.
  intros H. unfold handleColorClick, is_playing.
  destruct H as [H | H].
  - destruct (gameState s); [congruence | reflexivity | reflexivity].
  - replace (3 <=? Z.of_nat (length (guesses s))) with true by lia.
    now rewrite orb_true_r.
Qed.

Lemma handleColorClick_accepted s color :
  gameState s = playing -> (length (guesses s) < 3)%nat ->
  handleColorClick s color
  = (setAnimateGuess true (setSelectedColor (Some color) s),
     [(200, ScoreGuess (guesses s) color)]).
Proof.
  intros Hp Hl. unfold handleColorClick, is_playing. rewrite Hp.
  replace (3 <=? Z.of_nat (length (guesses s))) with false by lia.
  reflexivity.
Qed.

(** C2: a click while the game is over, or once three guesses are
    recorded, changes nothing: the handler returns the state as it was
    (history, clue counter and status included), starts no timer, and
    the whole guess operation is the identity. *)
Theorem submitGuess_noop (s : State) (color : string) :
  gameState s <> playing \/ (3 <= length (guesses s))%nat ->
  handleColorClick s color = (s, [])
  /\ submitGuess s color = s
  /\ guesses (submitGuess s color) = guesses s
  /\ currentClue (submitGuess s color) = currentClue s
  /\ gameState (submitGuess s color) = gameState s.
Proof.
  intros H. pose proof (handleColorClick_refused s color H) as Hc.
  assert (Hs : submitGuess s color = s).
  { unfold submitGuess. rewrite Hc. reflexivity. }
  rewrite Hs. repeat split. exact Hc.
Qed.

Lemma submitGuess_noop_witness :
  submitGuess (setGameState won initial) "#FF0000" = setGameState won initial.
Proof.
  apply (submitGuess_noop (setGameState won initial) "#FF0000").
  left. discriminate.
Defined.

(** A click whose callback runs before any other click ([submitGuess]),
    made while playing with fewer than three guesses on record, appends
    the scored guess (position looked up in the grid, closeness within
    one cell of the target position); then the status is won when the
    colour is the target's up to letter case; otherwise, with three
    guesses now on record, the status is lost and the clue counter is 3,
    the number of clues; otherwise the game goes on and the clue counter
    is the new number of guesses plus one. *)
Theorem submitGuess_playing (s : State) (color : string) :
  gameState s = playing -> (length (guesses s) < 3)%nat ->
  let s' := submitGuess s color in
  let position := findColorPosition colors color in
  guesses s'
  = (guesses s
     ++ [ {| color := color;
             isClose := isWithinProximity position targetPosition 1;
             position := position |} ])%list
  /\ (toLowerCase color = toLowerCase targetColor -> gameState s' = won)
  /\ (toLowerCase color <> toLowerCase targetColor ->
      (length (guesses s') = 3%nat ->
       gameState s' = lost /\ currentClue s' = 3
       /\ currentClue s' = Z.of_nat (length clues))
      /\ (length (guesses s') <> 3%nat ->
          gameState s' = playing
          /\ currentClue s' = Z.of_nat (length (guesses s')) + 1)).
Proof.
  intros Hp Hl. cbv zeta.
  unfold submitGuess. rewrite (handleColorClick_accepted s color Hp Hl).
  cbn [fold_left fst]. unfold run. cbv zeta.
  set (g := {| color := color; isClose := _; position := _ |}).
  assert (Hlen : length (guesses s ++ [g])%list = S (length (guesses s))).
  { rewrite length_app. cbn [length]. lia. }
  destruct (String.eqb_spec (toLowerCase color) (toLowerCase targetColor)) as [He | Hne].
  - cbn [fst guesses gameState currentClue setGuesses setGameState setCelebrating
         setSelectedColor setAnimateGuess].
    split; [reflexivity |]. split; [reflexivity | intros Hc; contradiction].
  - destruct (3 <=? Z.of_nat (length (guesses s ++ [g])%list)) eqn:H3;
      cbn [fst guesses gameState currentClue setGuesses setGameState setCurrentClue
           setSelectedColor setAnimateGuess];
      (split; [reflexivity |]); (split; [intros Hc; contradiction |]); intros _;
      rewrite Hlen in *;
      [apply Z.leb_le in H3 | apply Z.leb_gt in H3];
      split; intros H; repeat split; try reflexivity; try assumption;
      try (exfalso; lia).
Qed.

Lemma submitGuess_playing_witness :
  gameState initial = playing /\ (length (guesses initial) < 3)%nat
  /\ (toLowerCase targetColor = toLowerCase targetColor ->
      gameState (submitGuess initial targetColor) = won).
Proof.
  split; [reflexivity |]. split; [cbn; lia |].
  apply (submitGuess_playing initial targetColor); [reflexivity | cbn; lia].
Defined.

End Session.

(** ** The daily state store *)

Section Store.
Import Platform storageUtils.

Variable JSON_parse : string -> option json.
Variable JSON_stringify : json -> string.

(** [JSON.parse] throws on the empty text. *)
Hypothesis JSON_parse_empty : JSON_parse "" = None.

Local Abbreviation load := (loadGameState JSON_parse).
Local Abbreviation save := (saveGameState JSON_stringify).

Lemma storage_of_window w m : window w = Some m -> storage_of w = m.
Proof. unfold storage_of. now intros ->. Qed.

Lemma parsed_not_empty stored v : JSON_parse stored = Some v -> stored <> "".
Proof. intros H ->. congruence. Qed.

(** What [load] does with a stored text that parses, by the value. *)
Lemma load_parsed w m stored v :
  window w = Some m -> m !! STORAGE_KEY = Some stored ->
  JSON_parse stored = Some v ->
  load w =
  match get_prop v "date" with
  | Throw _ => (None, console_error "Error loading game state:" w)
  | Return date =>
      if strict_ne_string date (getTodayString w)
      then (None, with_storage w (delete STORAGE_KEY m))
      else (Some v, w)
  end.
Proof.
  intros Hw Hm Hp. pose proof (parsed_not_empty _ _ Hp) as Hne.
  unfold loadGameState, try_catch, bind, getItem.
  rewrite Hw, (storage_of_window _ _ Hw), Hm.
  destruct stored as [| c stored']; [congruence |].
  unfold parse. rewrite Hp. unfold ret, lift.
  destruct (get_prop v "date") as [date | e]; [| reflexivity].
  destruct (strict_ne_string date (getTodayString w)); [| reflexivity].
  unfold removeItem. rewrite (storage_of_window _ _ Hw). reflexivity.
Qed.

Lemma strict_ne_string_true value s :
  value <> Some (JStr s) -> strict_ne_string value s = true.
Proof.
  destruct value as [[ | | | s' | | ] |]; try reflexivity.
  intros H. cbn. destruct (String.eqb_spec s' s); [congruence | reflexivity].
Qed.

(** C7: when the stored record carries a date key other than today's
    (or none), [load] reports absent and takes the record out of the
    storage, which no longer holds it. *)
Theorem load_stale_record w m stored props :
  window w = Some m -> m !! STORAGE_KEY = Some stored ->
  JSON_parse stored = Some (JObj props) ->
  obj_get "date" props <> Some (JStr (getTodayString w)) ->
  load w = (None, with_storage w (delete STORAGE_KEY m))
  /\ storage_of (snd (load w)) !! STORAGE_KEY = None.
Proof.
  intros Hw Hm Hp Hd.
  rewrite (load_parsed w m stored _ Hw Hm Hp). cbn [get_prop].
  rewrite (strict_ne_string_true _ _ Hd).
  split; [reflexivity |]. cbn. apply lookup_delete_eq.
Qed.

Lemma load_corrupt_record_kept w m stored :
  window w = Some m -> m !! STORAGE_KEY = Some stored ->
  JSON_parse stored = None ->
  storage_of (snd (load w)) !! STORAGE_KEY = Some stored.
Proof.
  intros Hw Hm Hp.
  unfold loadGameState, try_catch, bind, getItem.
  rewrite Hw, (storage_of_window _ _ Hw), Hm.
  destruct stored as [| c stored']; cbn [snd ret].
  - rewrite (storage_of_window _ _ Hw). exact Hm.
  - unfold parse. rewrite Hp. cbn [throw snd].
    unfold storage_of, console_error. cbn [window]. rewrite Hw. exact Hm.
Qed.

(** C8, as the code has it: when the stored text does not parse, [load]
    does not throw; it reports absent, as it does when nothing is stored,
    and leaves the storage as it was, the unparseable text still in it. *)
Theorem load_corrupt_record w m stored :
  window w = Some m -> m !! STORAGE_KEY = Some stored ->
  JSON_parse stored = None ->
  fst (load w) = None
  /\ fst (load w) = fst (load (with_storage w (delete STORAGE_KEY m)))
  /\ window (snd (load w)) = Some m
  /\ storage_of (snd (load w)) !! STORAGE_KEY = Some stored.
Proof.
  intros Hw Hm Hp.
  assert (H : load w = (None, w)
              \/ load w = (None, console_error "Error loading game state:" w)).
  { unfold loadGameState, try_catch, bind, getItem.
    rewrite Hw, (storage_of_window _ _ Hw), Hm.
    destruct stored as [| c stored']; [left; reflexivity |].
    unfold parse. rewrite Hp. right. reflexivity. }
  assert (Hfresh : fst (load (with_storage w (delete STORAGE_KEY m))) = None).
  { unfold loadGameState, try_catch, bind, getItem, storage_of, with_storage.
    cbn [window fst default from_option id]. rewrite lookup_delete_eq. reflexivity. }
  rewrite Hfresh.
  destruct H as [-> | ->]; cbn [fst snd]; unfold storage_of, console_error;
    cbn [window]; rewrite Hw; auto.
Qed.

Lemma obj_set_fresh k v o :
  obj_get k o = None -> obj_set k v o = (o ++ [(k, v)])%list.
Proof.
  induction o as [| [k' v'] o IH]; cbn; [reflexivity |].
  destruct (String.eqb k k'); [discriminate |].
  intros H. now rewrite IH.
Qed.

Lemma obj_get_set k v o : obj_get k (obj_set k v o) = Some v.
Proof.
  induction o as [| [k' v'] o IH]; cbn.
  - now rewrite String.eqb_refl.
  - destruct (String.eqb k k') eqn:E; cbn; rewrite ?String.eqb_refl, ?E; auto.
Qed.

(** C9: [save] then [load] on the same day gives back the saved state
    with today's date key added.  The setting is a browser whose storage
    takes the write, and the platform's JSON reads back the record it
    printed. *)
Theorem save_load_roundtrip w m state t :
  let today := getTodayString w in
  let record := JObj (state ++ [("date", JStr today)])%list in
  window w = Some m ->
  obj_get "date" state = None ->
  accepts w STORAGE_KEY (JSON_stringify record) = true ->
  JSON_parse (JSON_stringify record) = Some record ->
  getTodayString (at_time t (save state w)) = today ->
  fst (load (at_time t (save state w))) = Some record.
Proof.
  intros today record Hw Hfresh Hacc Hrt Hday.
  assert (Hs : save state w
               = with_storage w (<[STORAGE_KEY := JSON_stringify record]> m)).
  { unfold saveGameState, try_catch, setItem.
    rewrite Hw, (storage_of_window _ _ Hw).
    rewrite (obj_set_fresh _ _ _ Hfresh). fold today. fold record.
    rewrite Hacc. reflexivity. }
  rewrite Hs in *.
  rewrite (load_parsed _ (<[STORAGE_KEY := JSON_stringify record]> m)
             (JSON_stringify record) record);
    [| reflexivity | apply lookup_insert_eq | exact Hrt].
  unfold record at 1. cbn [get_prop].
  replace (obj_get "date" (state ++ [("date", JStr today)])%list)
    with (Some (JStr today)).
  - rewrite Hday. cbn. rewrite String.eqb_refl. reflexivity.
  - rewrite <- (obj_set_fresh _ _ _ Hfresh). symmetry. apply obj_get_set.
Qed.

End Store.

(** ** The grid *)

Section Grid.
Import JsString colorUtils Palette.

Lemma generateColorGrid_value : generateColorGrid = grid_value.
Proof. vm_compute. reflexivity. Qed.

Lemma grid_spec_value : grid_spec = grid_value.
Proof. vm_compute. reflexivity. Qed.

(** C5: the grid takes no input and is one fixed sequence; it has
    ROWS x COLS = 16 x 20 = 320 entries, every one [#] followed by six
    upper-case hexadecimal digits, and it is the sequence the design's
    scheme describes: row by row, hue (col / COLS) x 360, saturation 100,
    lightness by band, through the standard conversion. *)
Theorem generateColorGrid_spec :
  generateColorGrid = grid_spec
  /\ length generateColorGrid = Z.to_nat (ROWS * COLS)
  /\ length generateColorGrid = 320%nat
  /\ forallb is_color generateColorGrid = true.
Proof.
  rewrite generateColorGrid_value, grid_spec_value.
  repeat split; vm_compute; reflexivity.
Qed.

End Grid.

(** ** The functions at work on sample inputs *)

Section Samples.
Import JsString colorUtils Nearest Platform storageUtils Colordle Palette Sample Rgb.


Example rgb_spec_mixed_case : rgb_spec "#1a2B3c" = {| r := 26; g := 43; b := 60 |}.
Proof. reflexivity. Qed.

Example colour_spec_five_digits : colour_spec "#12345" = None.
Proof. reflexivity. Qed.

Example findColorPosition_nearest_black :
  findColorPosition small_grid "zz" = {| row := 0; col := 2 |}.
Proof. vm_compute. reflexivity. Qed.

Example findColorPosition_exact :
  findColorPosition small_grid "#102030" = {| row := 0; col := 1 |}.
Proof. vm_compute. reflexivity. Qed.

Example targetPosition_value : targetPosition = {| row := 1; col := 18 |}.
Proof.
  unfold targetPosition, colors. rewrite generateColorGrid_value.
  vm_compute. reflexivity.
Qed.

Example band_lightness_values :
  map band_lightness (range 16 0)
  = map JsNumber.num [95; 85; 75; 65; 60; 56; 52; 48; 44; 40; 36; 32; 28; 24; 20; 16].
Proof. vm_compute. reflexivity. Qed.

Example getTodayString_morning : getTodayString stale_world = "2025-11-03".
Proof. reflexivity. Qed.

Lemma stale_text_parses : Json.parse stale_text = Some (JObj stale_props).
Proof. vm_compute. reflexivity. Qed.

Lemma load_stale_record_witness :
  loadGameState Json.parse stale_world
  = (None, with_storage stale_world (delete STORAGE_KEY {[ STORAGE_KEY := stale_text ]}))
  /\ storage_of (snd (loadGameState Json.parse stale_world)) !! STORAGE_KEY = None.
Proof.
  apply (load_stale_record Json.parse eq_refl stale_world
           {[ STORAGE_KEY := stale_text ]} stale_text stale_props).
  - reflexivity.
  - apply lookup_singleton_eq.
  - exact stale_text_parses.
  - vm_compute. discriminate.
Defined.

Lemma load_corrupt_record_witness :
  fst (loadGameState Json.parse corrupt_world) = None
  /\ fst (loadGameState Json.parse corrupt_world)
     = fst (loadGameState Json.parse
              (with_storage corrupt_world
                 (delete STORAGE_KEY {[ STORAGE_KEY := corrupt_text ]})))
  /\ window (snd (loadGameState Json.parse corrupt_world))
     = Some {[ STORAGE_KEY := corrupt_text ]}
  /\ storage_of (snd (loadGameState Json.parse corrupt_world)) !! STORAGE_KEY
     = Some corrupt_text.
Proof.
  apply (load_corrupt_record Json.parse corrupt_world
           {[ STORAGE_KEY := corrupt_text ]} corrupt_text).
  - reflexivity.
  - apply lookup_singleton_eq.
  - reflexivity.
Defined.

(** C8 as stated fails: after [load] on a text that does not parse, the
    storage still holds that text; it was not discarded. *)
Lemma load_corrupt_record_not_discarded :
  Json.parse corrupt_text = None
  /\ storage_of corrupt_world !! STORAGE_KEY = Some corrupt_text
  /\ fst (loadGameState Json.parse corrupt_world) = None
  /\ storage_of (snd (loadGameState Json.parse corrupt_world)) !! STORAGE_KEY
     = Some corrupt_text
  /\ storage_of (snd (loadGameState Json.parse corrupt_world)) !! STORAGE_KEY <> None.
Proof.
  assert (H : storage_of (snd (loadGameState Json.parse corrupt_world)) !! STORAGE_KEY
              = Some corrupt_text).
  { apply (load_corrupt_record_kept Json.parse corrupt_world
             {[ STORAGE_KEY := corrupt_text ]} corrupt_text);
      [reflexivity | apply lookup_singleton_eq | reflexivity]. }
  split; [reflexivity |]. split; [apply lookup_singleton_eq |].
  split; [reflexivity |]. split; [exact H | rewrite H; discriminate].
Qed.

Lemma save_load_roundtrip_witness :
  fst (loadGameState Json.parse
         (at_time evening (saveGameState Json.stringify saved fresh_world)))
  = Some (JObj (saved ++ [("date", JStr "2025-11-03")])%list).
Proof.
  apply (save_load_roundtrip Json.parse Json.stringify eq_refl fresh_world ∅ saved evening).
  - reflexivity.
  - reflexivity.
  - reflexivity.
  - vm_compute. reflexivity.
  - reflexivity.
Defined.

End Samples.

(** ** Colours, further *)

Section Colour_more.
Import JsNumber JsString colorUtils Nearest Palette Channels.

Lemma hex_value_lower c : is_hex c = true -> hex_value (lower_char c) = hex_value c.
Proof. destruct c as [[] [] [] [] [] [] [] []]; cbv; congruence. Qed.

Lemma six_hex_inv s g1 g2 g3 :
  six_hex s = Some (g1, g2, g3) ->
  exists c1 c2 c3 c4 c5 c6,
    s = String c1 (String c2 (String c3 (String c4 (String c5 (String c6 "")))))
    /\ g1 = String c1 (String c2 "") /\ g2 = String c3 (String c4 "")
    /\ g3 = String c5 (String c6 "")
    /\ forallb is_hex [c1; c2; c3; c4; c5; c6] = true.
Proof.
  unfold six_hex.
  destruct s as [| c1 [| c2 [| c3 [| c4 [| c5 [| c6 [| c7 s]]]]]]]; try discriminate.
  cbn [list_ascii_of_string].
  destruct (forallb is_hex [c1; c2; c3; c4; c5; c6]) eqn:Hh; [| discriminate].
  intros [= <- <- <-]. exists c1, c2, c3, c4, c5, c6. auto.
Qed.

Lemma six_hex_lower s : six_hex (toLowerCase s) = option_map lower3 (six_hex s).
Proof.
  unfold six_hex, toLowerCase. rewrite list_ascii_map_string.
  destruct (list_ascii_of_string s) as [| c1 [| c2 [| c3 [| c4 [| c5 [| c6 [| c7 l]]]]]]];
    try reflexivity.
  cbn [map forallb]. rewrite !is_hex_lower.
  destruct (is_hex c1 && (is_hex c2 && (is_hex c3 && (is_hex c4 && (is_hex c5 && (is_hex c6 && true))))));
    reflexivity.
Qed.

Lemma hex_regex_exec_no_sharp c rest :
  c <> "#"%char -> hex_regex_exec (String c rest) = six_hex (String c rest).
Proof. intros H. destruct c as [[] [] [] [] [] [] [] []]; try reflexivity. congruence. Qed.

Lemma hex_regex_exec_lower_groups s :
  hex_regex_exec (toLowerCase s) = option_map lower3 (hex_regex_exec s).
Proof.
  destruct s as [| c rest]; [reflexivity |].
  change (toLowerCase (String c rest)) with (String (lower_char c) (toLowerCase rest)).
  destruct (Ascii.eqb_spec c "#") as [-> | Hc].
  - change (lower_char "#") with "#"%char. cbn [hex_regex_exec].
    rewrite six_hex_lower.
    change (String "#" (toLowerCase rest)) with (toLowerCase (String "#" rest)).
    rewrite six_hex_lower.
    destruct (six_hex rest) as [[[g1 g2] g3] |]; reflexivity.
  - rewrite !hex_regex_exec_no_sharp; [| exact Hc | now rewrite sharp_lower].
    change (String (lower_char c) (toLowerCase rest)) with (toLowerCase (String c rest)).
    apply six_hex_lower.
Qed.

Lemma hex_regex_exec_inv s g1 g2 g3 :
  hex_regex_exec s = Some (g1, g2, g3) ->
  exists c1 c2 c3 c4 c5 c6,
    g1 = String c1 (String c2 "") /\ g2 = String c3 (String c4 "")
    /\ g3 = String c5 (String c6 "")
    /\ forallb is_hex [c1; c2; c3; c4; c5; c6] = true
    /\ (s = String c1 (String c2 (String c3 (String c4 (String c5 (String c6 "")))))
        \/ s = String "#" (String c1 (String c2 (String c3 (String c4 (String c5 (String c6 ""))))))).
Proof.
  intros H.
  assert (Hs : six_hex s = Some (g1, g2, g3)
               \/ exists rest, s = String "#" rest /\ six_hex rest = Some (g1, g2, g3)).
  { destruct s as [| c rest]; [now left |].
    destruct (Ascii.eqb_spec c "#") as [-> | Hc].
    - cbn [hex_regex_exec] in H. destruct (six_hex rest) as [gs |] eqn:Er; [| now left].
      right. exists rest. split; [reflexivity | congruence].
    - left. now rewrite hex_regex_exec_no_sharp in H. }
  destruct Hs as [Hs | (rest & -> & Hs)];
    apply six_hex_inv in Hs as (c1 & c2 & c3 & c4 & c5 & c6 & -> & -> & -> & -> & Hh);
    exists c1, c2, c3, c4, c5, c6; auto 10.
Qed.

Lemma parseInt16_pair_lower c1 c2 :
  is_hex c1 = true -> is_hex c2 = true ->
  parseInt16 (toLowerCase (String c1 (String c2 ""))) = parseInt16 (String c1 (String c2 "")).
Proof.
  intros H1 H2. unfold parseInt16. cbn. now rewrite !hex_value_lower.
Qed.

Lemma hexToRgb_lower s : hexToRgb (toLowerCase s) = hexToRgb s.
Proof.
  unfold hexToRgb. rewrite hex_regex_exec_lower_groups.
  destruct (hex_regex_exec s) as [[[g1 g2] g3] |] eqn:E; [| reflexivity].
  apply hex_regex_exec_inv in E as (c1 & c2 & c3 & c4 & c5 & c6 & -> & -> & -> & Hh & _).
  cbn [forallb] in Hh. rewrite !andb_true_iff in Hh.
  destruct Hh as (H1 & H2 & H3 & H4 & H5 & H6 & _).
  cbn [option_map lower3]. now rewrite !parseInt16_pair_lower.
Qed.

Lemma hexToRgb_ci x y : toLowerCase x = toLowerCase y -> hexToRgb x = hexToRgb y.
Proof. intros H. now rewrite <- (hexToRgb_lower x), H, hexToRgb_lower. Qed.

Lemma findColorPosition_ci colors x y :
  toLowerCase x = toLowerCase y ->
  findColorPosition colors x = findColorPosition colors y.
Proof.
  intros H. unfold findColorPosition, findIndex_ci.
  rewrite (hexToRgb_ci x y H). rewrite H. reflexivity.
Qed.

(* ---- more definitions ---- *)
(** The cells of the grid in generation order. *)
Lemma hslToHex_channels h s l :
  hslToHex h s l
  = let '(r, g, b) := hslChannels h s l in
    toUpperCase ("#" ++ twoHex r ++ twoHex g ++ twoHex b).
Proof.
  unfold hslToHex, hslChannels, twoHex. cbv zeta.
  repeat match goal with
         | |- context [if ?c then _ else _] => destruct c
         end; reflexivity.
Qed.

Lemma small_cases (P : Z -> Prop) (n : nat) :
  Forall (fun i => P (Z.of_nat i)) (seq 0 n) ->
  forall v, 0 <= v < Z.of_nat n -> P v.
Proof.
  intros H v Hv. rewrite Forall_seq in H.
  specialize (H (Z.to_nat v) ltac:(lia)). now rewrite Z2Nat.id in H by lia.
Qed.

Lemma twoHex_digits v :
  0 <= v <= 255 ->
  toUpperCase (twoHex (Int v))
  = String (upper_hex_digit (v / 16)) (String (upper_hex_digit (v mod 16)) "").
Proof.
  intros Hv. revert v Hv.
  assert (H : forall v, 0 <= v < Z.of_nat 256 ->
            toUpperCase (twoHex (Int v))
            = String (upper_hex_digit (v / 16)) (String (upper_hex_digit (v mod 16)) "")).
  { apply small_cases. apply (bool_decide_unpack _). vm_compute. exact I. }
  intros v Hv. apply H. lia.
Qed.

Lemma upper_hex_digit_value d :
  0 <= d <= 15 ->
  is_hex (upper_hex_digit d) = true /\ hex_value (upper_hex_digit d) = d.
Proof.
  intros Hd. revert d Hd.
  assert (H : forall d, 0 <= d < Z.of_nat 16 ->
            is_hex (upper_hex_digit d) = true /\ hex_value (upper_hex_digit d) = d).
  { apply small_cases. apply (bool_decide_unpack _). vm_compute. exact I. }
  intros d Hd. apply H. lia.
Qed.

Lemma toUpperCase_app a b : toUpperCase (a ++ b) = toUpperCase a ++ toUpperCase b.
Proof.
  unfold toUpperCase. induction a as [| c a IH]; [reflexivity |].
  change (map_string upper_char (String c (a ++ b))
          = String (upper_char c) (map_string upper_char a ++ map_string upper_char b)).
  cbn [map_string]. now f_equal.
Qed.

(** X1: when the three channels that hslToHex rounds are integers from 0
    to 255, hexToRgb reads back from the text hslToHex returns exactly
    those three channels. *)
Theorem hexToRgb_hslToHex h s l rv gv bv :
  hslChannels h s l = (Int rv, Int gv, Int bv) ->
  0 <= rv <= 255 -> 0 <= gv <= 255 -> 0 <= bv <= 255 ->
  hexToRgb (hslToHex h s l) = {| r := rv; g := gv; b := bv |}.
Proof.
  intros Hc Hr Hg Hb. rewrite hslToHex_channels, Hc.
  rewrite !toUpperCase_app, !twoHex_digits by assumption.
  destruct (upper_hex_digit_value (rv / 16)) as [H1 V1]; [Z.div_mod_to_equations; lia |].
  destruct (upper_hex_digit_value (rv mod 16)) as [H2 V2]; [Z.div_mod_to_equations; lia |].
  destruct (upper_hex_digit_value (gv / 16)) as [H3 V3]; [Z.div_mod_to_equations; lia |].
  destruct (upper_hex_digit_value (gv mod 16)) as [H4 V4]; [Z.div_mod_to_equations; lia |].
  destruct (upper_hex_digit_value (bv / 16)) as [H5 V5]; [Z.div_mod_to_equations; lia |].
  destruct (upper_hex_digit_value (bv mod 16)) as [H6 V6]; [Z.div_mod_to_equations; lia |].
  change (toUpperCase "#") with "#".
  match goal with
  | |- hexToRgb ("#" ++ String ?a1 (String ?a2 "") ++ String ?a3 (String ?a4 "")
                 ++ String ?a5 (String ?a6 "")) = _ =>
      change ("#" ++ String a1 (String a2 "") ++ String a3 (String a4 "")
              ++ String a5 (String a6 ""))
        with (String "#" (String a1 (String a2 (String a3 (String a4
                (String a5 (String a6 "")))))))
  end.
  unfold hexToRgb. cbn [hex_regex_exec].
  unfold six_hex. cbn [list_ascii_of_string forallb].
  rewrite H1, H2, H3, H4, H5, H6. cbn [andb].
  unfold parseInt16. cbn [list_ascii_of_string fold_left].
  rewrite V1, V2, V3, V4, V5, V6.
  f_equal; Z.div_mod_to_equations; lia.
Qed.

(** *** The loops of the generator *)

Lemma for_loop_ext {A} (f f' : A -> Z -> A) n : forall from acc,
  (forall a i, f a i = f' a i) -> for_loop n from f acc = for_loop n from f' acc.
Proof.
  induction n as [| n IH]; intros from acc H; cbn; [reflexivity |].
  rewrite H. now apply IH.
Qed.

Lemma for_loop_append {A} (f : Z -> list A) n : forall from acc,
  for_loop n from (fun a i => a ++ f i)%list acc = (acc ++ flat_map f (range n from))%list.
Proof.
  induction n as [| n IH]; intros from acc; cbn.
  - now rewrite app_nil_r.
  - rewrite IH. now rewrite <- app_assoc.
Qed.

Lemma flat_map_singleton {A B} (f : A -> B) l : flat_map (fun x => [f x]) l = map f l.
Proof. induction l as [| x l IH]; cbn; [reflexivity | now rewrite IH]. Qed.

Lemma generateColorGrid_cells :
  generateColorGrid = map (fun '(row, col) => cellColor row col) grid_cells.
Proof.
  unfold generateColorGrid, grid_cells.
  rewrite (for_loop_ext _
             (fun colors row => colors ++ map (cellColor row) (range (Z.to_nat COLS) 0))%list).
  - rewrite for_loop_append. cbn [app].
    induction (range (Z.to_nat ROWS) 0) as [| row rows IH]; [reflexivity |].
    cbn [flat_map]. rewrite map_app, IH. f_equal; now rewrite ?map_map.
  - intros colors row. rewrite for_loop_append. now rewrite flat_map_singleton.
Qed.

Lemma grid_cells_lookup row col :
  0 <= row < ROWS -> 0 <= col < COLS ->
  grid_cells !! Z.to_nat (row * COLS + col) = Some (row, col).
Proof.
  intros Hr Hc. unfold ROWS, COLS in *.
  assert (H : forall i, 0 <= i < Z.of_nat 320 ->
            grid_cells !! Z.to_nat i = Some (i / 20, i mod 20)).
  { apply small_cases. apply (bool_decide_unpack _). vm_compute. exact I. }
  rewrite H by lia. f_equal. f_equal; Z.div_mod_to_equations; lia.
Qed.

Lemma findColorPosition_of_entry colors i x :
  NoDup (map toLowerCase colors) -> colors !! i = Some x ->
  findColorPosition colors x = position_of_index i.
Proof.
  intros Hnd Hi. unfold findColorPosition, findIndex_ci.
  rewrite (proj2 (list_find_Some _ colors i x)); [reflexivity |].
  split; [exact Hi |]. split; [reflexivity |].
  intros j y Hj Hlt Heq.
  assert (j = i); [| lia].
  eapply NoDup_lookup; [exact Hnd | |].
  - rewrite list_lookup_fmap, Hj. reflexivity.
  - rewrite list_lookup_fmap, Hi. cbn. now rewrite Heq.
Qed.

Lemma grid_distinct_ci : NoDup (map toLowerCase generateColorGrid).
Proof.
  rewrite generateColorGrid_value. apply (bool_decide_unpack _). vm_compute. exact I.
Qed.

(** C6: the grid holds 320 colours, the colour of cell (row, col) at
    index row * 20 + col, and no two of them are the same text: two cells
    with the same colour are the same cell. *)
Theorem generateColorGrid_distinct :
  length generateColorGrid = 320%nat
  /\ NoDup generateColorGrid
  /\ forall row col row' col',
       0 <= row < ROWS -> 0 <= col < COLS ->
       0 <= row' < ROWS -> 0 <= col' < COLS ->
       generateColorGrid !! Z.to_nat (row * COLS + col) = Some (cellColor row col)
       /\ (cellColor row col = cellColor row' col' -> row = row' /\ col = col').
Proof.
  assert (Hnd : NoDup generateColorGrid)
    by exact (NoDup_fmap_1 toLowerCase generateColorGrid grid_distinct_ci).
  assert (Hl : forall row col, 0 <= row < ROWS -> 0 <= col < COLS ->
                 generateColorGrid !! Z.to_nat (row * COLS + col)
                 = Some (cellColor row col)).
  { intros row col Hr Hc.
    rewrite generateColorGrid_cells, list_lookup_fmap, (grid_cells_lookup row col Hr Hc).
    reflexivity. }
  split; [rewrite generateColorGrid_value; reflexivity |].
  split; [exact Hnd |].
  intros row col row' col' Hr Hc Hr' Hc'. split; [now apply Hl |].
  intros E. pose proof (Hl row col Hr Hc) as H1. pose proof (Hl row' col' Hr' Hc') as H2.
  rewrite <- E in H2. pose proof (NoDup_lookup _ _ _ _ Hnd H1 H2) as Hi.
  unfold ROWS, COLS in *. lia.
Qed.

(** X2: the generated grid holds the colour of cell (row, col) at index
    row * 20 + col, and looking that colour up in the grid gives back
    (row, col), for each of the sixteen rows and twenty columns. *)
Theorem findColorPosition_cellColor (row col : Z) :
  0 <= row < ROWS -> 0 <= col < COLS ->
  generateColorGrid !! Z.to_nat (row * COLS + col) = Some (cellColor row col)
  /\ findColorPosition generateColorGrid (cellColor row col)
     = {| colorUtils.row := row; colorUtils.col := col |}.
Proof.
  intros Hr Hc.
  assert (Hl : generateColorGrid !! Z.to_nat (row * COLS + col) = Some (cellColor row col)).
  { rewrite generateColorGrid_cells, list_lookup_fmap, (grid_cells_lookup row col Hr Hc).
    reflexivity. }
  split; [exact Hl |].
  rewrite (findColorPosition_of_entry _ _ _ grid_distinct_ci Hl).
  unfold position_of_index, ROWS, COLS in *. rewrite Z2Nat.id by lia.
  f_equal; Z.div_mod_to_equations; lia.
Qed.

(** X3: on a grid that is not empty, whatever text is looked up (a
    colour of the grid, another colour, or no colour at all), the position
    returned is the position of an entry of the grid: its column is below
    20 and row * 20 + col is an index of the grid. *)
Theorem findColorPosition_in_grid (colors : list string) (c : string) :
  colors <> [] ->
  let p := findColorPosition colors c in
  0 <= colorUtils.row p /\ 0 <= colorUtils.col p < COLS
  /\ colorUtils.row p * COLS + colorUtils.col p < Z.of_nat (length colors)
  /\ is_Some (colors !! Z.to_nat (colorUtils.row p * COLS + colorUtils.col p)).
Proof.
  intros Hne. cbv zeta.
  assert (H : exists i, (i < length colors)%nat
                        /\ findColorPosition colors c = position_of_index i).
  { unfold findColorPosition.
    destruct (findIndex_ci colors c) as [i |] eqn:E.
    - exists i. split; [| reflexivity]. unfold findIndex_ci in E.
      destruct (list_find _ colors) as [[i' x] |] eqn:Ef; [| discriminate].
      injection E as <-. apply list_find_Some in Ef as (Hi & _).
      now apply lookup_lt_Some in Hi.
    - eexists. split; [| reflexivity].
      pose proof (nearest_index colors c) as Hn. cbv zeta in Hn.
      destruct (colors !! _) as [x |] eqn:El.
      + now apply lookup_lt_Some in El.
      + destruct Hn as [Hn _]. contradiction. }
  destruct H as (i & Hi & ->). unfold position_of_index, COLS. cbn [colorUtils.row colorUtils.col].
  assert (E : Z.of_nat i / 20 * 20 + Z.of_nat i mod 20 = Z.of_nat i)
    by (Z.div_mod_to_equations; lia).
  rewrite E, Nat2Z.id.
  split; [Z.div_mod_to_equations; lia |]. split; [Z.div_mod_to_equations; lia |].
  split; [lia |]. now apply lookup_lt_is_Some.
Qed.

(** X4: the three channels hexToRgb returns lie between 0 and 255, for
    every text, malformed ones included. *)
Theorem hexToRgb_range (hex : string) :
  0 <= r (hexToRgb hex) <= 255 /\ 0 <= g (hexToRgb hex) <= 255
  /\ 0 <= b (hexToRgb hex) <= 255.
Proof. exact (hexToRgb_gamut hex). Qed.

(** X5: hexToRgb does not depend on the case of the letters. *)
Theorem hexToRgb_case (hex : string) : hexToRgb (toLowerCase hex) = hexToRgb hex.
Proof. apply hexToRgb_lower. Qed.

(** X6: six hexadecimal digits are read the same with and without the
    leading sharp sign. *)
Theorem hexToRgb_sharp (hex : string) :
  six_ok (list_ascii_of_string hex) = true ->
  hexToRgb (String "#" hex) = hexToRgb hex.
Proof.
  intros Hok. unfold hexToRgb. cbn [hex_regex_exec].
  destruct (six_hex hex) as [gs |] eqn:E.
  - destruct hex as [| c rest]; [discriminate |].
    assert (Hc : c <> "#"%char).
    { intros ->. unfold six_ok in Hok. cbn in Hok.
      now rewrite andb_false_r in Hok. }
    now rewrite (hex_regex_exec_no_sharp c rest Hc), E.
  - apply six_hex_None in E. congruence.
Qed.

(** X7: two texts that differ only in the case of their letters are found
    at the same position of any grid, whether the grid holds them or the
    nearest colour is taken. *)
Theorem findColorPosition_case (colors : list string) (x y : string) :
  toLowerCase x = toLowerCase y ->
  findColorPosition colors x = findColorPosition colors y.
Proof. apply findColorPosition_ci. Qed.

End Colour_more.

(** ** Whole sessions *)

Section Rounds_facts.
Import JsString colorUtils Nearest Colordle Rounds.

Lemma submitGuess_refused s color :
  gameState s <> playing \/ (3 <= length (guesses s))%nat -> submitGuess s color = s.
Proof.
  intros H. unfold submitGuess. rewrite (handleColorClick_refused s color H). reflexivity.
Qed.

Lemma submitGuess_accepted s color :
  gameState s = playing -> (length (guesses s) < 3)%nat ->
  let s1 := setGuesses (guesses s ++ [scoreOf color])
              (setAnimateGuess true (setSelectedColor (Some color) s)) in
  submitGuess s color =
  if String.eqb (toLowerCase color) (toLowerCase targetColor)
  then setCelebrating true (setGameState won s1)
  else if 3 <=? Z.of_nat (length (guesses s ++ [scoreOf color]))
       then setGameState lost (setCurrentClue 3 s1)
       else setCurrentClue (Z.of_nat (length (guesses s ++ [scoreOf color])) + 1) s1.
Proof.
  intros Hp Hl. cbv zeta. unfold submitGuess.
  rewrite (handleColorClick_accepted s color Hp Hl).
  cbn [fold_left fst]. unfold run. cbv zeta. fold (scoreOf color).
  destruct (String.eqb (toLowerCase color) (toLowerCase targetColor)); [reflexivity |].
  destruct (3 <=? Z.of_nat (length (guesses s ++ [scoreOf color]))); reflexivity.
Qed.

Lemma hits_eqb c : String.eqb (toLowerCase c) (toLowerCase targetColor) = true <-> hits c.
Proof. unfold hits. apply String.eqb_eq. Qed.

Lemma initial_consistent : consistent initial.
Proof.
  unfold consistent. cbn. repeat split; try lia; constructor.
Qed.

Lemma submitGuess_consistent s c : consistent s -> consistent (submitGuess s c).
Proof.
  intros (Hlen & Hsc & Hst).
  destruct (gameState s) eqn:Hg.
  - destruct Hst as (Hlt & Hclue & Hno).
    rewrite (submitGuess_accepted s c Hg Hlt). cbv zeta.
    assert (Hl : length (guesses s ++ [scoreOf c])%list = S (length (guesses s))).
    { rewrite length_app. cbn. lia. }
    assert (Hsc' : Forall (fun gs => gs = scoreOf (color gs)) (guesses s ++ [scoreOf c])).
    { apply Forall_app. split; [exact Hsc |]. constructor; [reflexivity | constructor]. }
    destruct (String.eqb (toLowerCase c) (toLowerCase targetColor)) eqn:He.
    + apply hits_eqb in He. unfold consistent. cbn. rewrite Hl.
      split; [lia |]. split; [exact Hsc' |].
      exists (guesses s), (scoreOf c). repeat split; auto. rewrite Hclue. clear. lia.
    + assert (Hnh : ~ hits c) by (rewrite <- hits_eqb; congruence).
      assert (Hno' : Forall (fun gs => ~ hits (color gs)) (guesses s ++ [scoreOf c])).
      { apply Forall_app. split; [exact Hno |]. constructor; [exact Hnh | constructor]. }
      rewrite Hl.
      destruct (Z.leb_spec 3 (Z.of_nat (S (length (guesses s)))));
        unfold consistent; cbn; rewrite Hl, ?Hg; repeat split; auto; lia.
  - rewrite submitGuess_refused by (left; congruence).
    unfold consistent. rewrite Hg. auto.
  - rewrite submitGuess_refused by (left; congruence).
    unfold consistent. rewrite Hg. auto.
Qed.

Lemma play_snoc s clicks c : play s (clicks ++ [c]) = submitGuess (play s clicks) c.
Proof. unfold play. now rewrite fold_left_app. Qed.

Lemma play_consistent_lemma (clicks : list string) : consistent (play initial clicks).
Proof.
  induction clicks as [| c clicks IH] using rev_ind.
  - exact initial_consistent.
  - rewrite play_snoc. apply submitGuess_consistent, IH.
Qed.

Lemma play_over (s : State) (clicks : list string) :
  gameState s <> playing -> play s clicks = s.
Proof.
  intros H. induction clicks as [| c clicks IH]; [reflexivity |].
  unfold play in *. cbn [fold_left]. rewrite submitGuess_refused by (left; exact H).
  exact IH.
Qed.

Lemma submitGuess_cases s c :
  gameState s = playing -> (length (guesses s) < 3)%nat ->
  guesses (submitGuess s c) = (guesses s ++ [scoreOf c])%list
  /\ ((hits c /\ gameState (submitGuess s c) = won)
      \/ (~ hits c /\ S (length (guesses s)) = 3%nat /\ gameState (submitGuess s c) = lost)
      \/ (~ hits c /\ (S (length (guesses s)) < 3)%nat
          /\ gameState (submitGuess s c) = playing)).
Proof.
  intros Hg Hlt. rewrite (submitGuess_accepted s c Hg Hlt). cbv zeta.
  assert (Hl : length (guesses s ++ [scoreOf c])%list = S (length (guesses s))).
  { rewrite length_app. cbn. lia. }
  rewrite Hl.
  destruct (String.eqb (toLowerCase c) (toLowerCase targetColor)) eqn:He.
  - apply hits_eqb in He. cbn. auto.
  - assert (Hnh : ~ hits c) by (rewrite <- hits_eqb; congruence).
    destruct (Z.leb_spec 3 (Z.of_nat (S (length (guesses s))))); cbn; rewrite ?Hg.
    + split; [reflexivity |]. right. left. repeat split; auto. lia.
    + split; [reflexivity |]. right. right. repeat split; auto. lia.
Qed.

Lemma play_from clicks : forall s,
  gameState s = playing -> (length (guesses s) < 3)%nat ->
  let budget := (3 - length (guesses s))%nat in
  let s' := play s clicks in
  (gameState s' = won <-> Exists hits (take budget clicks))
  /\ (gameState s' = lost <->
      (budget <= length clicks)%nat /\ Forall (fun c => ~ hits c) (take budget clicks))
  /\ (gameState s' = playing <->
      (length clicks < budget)%nat /\ Forall (fun c => ~ hits c) clicks)
  /\ exists n, guesses s' = (guesses s ++ map scoreOf (take n clicks))%list.
Proof.
  induction clicks as [| c rest IH]; intros s Hg Hlt; cbv zeta.
  - change (play s []) with s. rewrite Hg, take_nil.
    split; [split; [discriminate | intros H; inversion H] |].
    split; [split; [discriminate | cbn; lia] |].
    split; [split; [intros _; split; [cbn; lia | constructor] | reflexivity] |].
    exists 0%nat. cbn. now rewrite app_nil_r.
  - change (play s (c :: rest)) with (play (submitGuess s c) rest).
    destruct (submitGuess_cases s c Hg Hlt) as (Hgs & Hcase).
    destruct (3 - length (guesses s))%nat as [| b] eqn:Hb; [lia |].
    cbn [take length].
    destruct Hcase as [(Hh & Hw) | [(Hnh & H3 & Hlost) | (Hnh & H3 & Hplay)]].
    + rewrite play_over by congruence. rewrite Hw.
      split; [split; [intros _; now constructor | reflexivity] |].
      split; [split; [discriminate | intros [_ HF]; inversion HF; contradiction] |].
      split; [split; [discriminate | intros [_ HF]; inversion HF; contradiction] |].
      exists 1%nat. rewrite Hgs. cbn. now rewrite take_0.
    + rewrite play_over by congruence. rewrite Hlost.
      assert (b = 0%nat) by lia. subst b. rewrite take_0.
      split; [split; [discriminate | intros HE; inversion HE; [contradiction |];
                                     match goal with H : Exists _ [] |- _ => inversion H end] |].
      split; [split; [intros _; split; [lia | now repeat constructor] | reflexivity] |].
      split; [split; [discriminate | lia] |].
      exists 1%nat. rewrite Hgs. cbn. now rewrite take_0.
    + assert (Hlt1 : (length (guesses (submitGuess s c)) < 3)%nat).
      { rewrite Hgs, length_app. cbn. lia. }
      destruct (IH (submitGuess s c) Hplay Hlt1) as (Hw & Hl & Hp & n & Hn).
      cbv zeta in *.
      replace (3 - length (guesses (submitGuess s c)))%nat with b in *
        by (rewrite Hgs, length_app; cbn; lia).
      split; [rewrite Hw, Exists_cons; tauto |].
      split; [rewrite Hl, Forall_cons; split; intros []; split; try tauto; lia |].
      split; [rewrite Hp, Forall_cons; split; intros []; split; try tauto; lia |].
      exists (S n). rewrite Hn, Hgs, <- app_assoc. reflexivity.
Qed.

(** X8: a session from the initial state is decided by its first three
    clicks: it is won exactly when one of them is the target colour (up to
    letter case), lost exactly when there are three and none is, and still
    playing exactly when there are fewer than three and none is; the
    guesses on record are the scored clicks of a prefix of the session. *)
Theorem play_outcome (clicks : list string) :
  let s := play initial clicks in
  (gameState s = won <-> Exists hits (take 3 clicks))
  /\ (gameState s = lost <->
      (3 <= length clicks)%nat /\ Forall (fun c => ~ hits c) (take 3 clicks))
  /\ (gameState s = playing <->
      (length clicks < 3)%nat /\ Forall (fun c => ~ hits c) clicks)
  /\ exists n, guesses s = map scoreOf (take n clicks).
Proof. exact (play_from clicks initial eq_refl ltac:(cbn; lia)). Qed.

Lemma visibleClues_consistent s :
  consistent s ->
  visibleClues s
  = if is_playing s then take (S (length (guesses s))) clues else clues.
Proof.
  intros (_ & _ & Hst). unfold visibleClues, clueVisible, is_playing.
  destruct (gameState s).
  - destruct Hst as (Hlt & -> & _).
    destruct (length (guesses s)) as [| [| [| n]]]; [reflexivity .. | lia].
  - cbn. rewrite !orb_true_r. reflexivity.
  - cbn. rewrite !orb_true_r. reflexivity.
Qed.

(** X9: every state of a session from the initial state holds at most
    three guesses, each one the scored form of its colour; the clue counter
    is the number of guesses when the game is won and the lesser of that
    number plus one and 3 otherwise; fewer than three guesses while
    playing, exactly three when lost; the game is won exactly when a guess
    on record is the target colour, and only the last guess can be. *)
Theorem play_invariant (clicks : list string) :
  let s := play initial clicks in
  let n := Z.of_nat (length (guesses s)) in
  (length (guesses s) <= 3)%nat
  /\ Forall (fun gs => gs = scoreOf (color gs)) (guesses s)
  /\ currentClue s = match gameState s with won => n | _ => Z.min (n + 1) 3 end
  /\ (gameState s = playing -> (length (guesses s) < 3)%nat)
  /\ (gameState s = lost -> length (guesses s) = 3%nat)
  /\ (gameState s = won <-> Exists (fun gs => hits (color gs)) (guesses s))
  /\ (forall earlier gs, guesses s = (earlier ++ [gs])%list ->
        Forall (fun gs' => ~ hits (color gs')) earlier).
Proof.
  cbv zeta. destruct (play_consistent_lemma clicks) as (Hlen & Hsc & Hst).
  split; [exact Hlen |]. split; [exact Hsc |].
  destruct (gameState (play initial clicks)) eqn:Hg.
  - destruct Hst as (Hlt & Hclue & Hno).
    split; [lia |].
    split; [auto |]. split; [discriminate |]. split.
    + split; [discriminate |]. intros HE. exfalso.
      apply Exists_exists in HE as (gs & Hin & Hh).
      rewrite Forall_forall in Hno. exact (Hno gs Hin Hh).
    + intros earlier gs E. rewrite E in Hno. now apply Forall_app in Hno.
  - destruct Hst as (earlier & gs & E & Hh & Hno & Hclue).
    split; [exact Hclue |].
    split; [discriminate |]. split; [discriminate |]. split.
    + split; [| reflexivity]. intros _. rewrite E. apply Exists_app. right. now constructor.
    + intros earlier' gs' E'. rewrite E in E'. apply app_inj_tail in E' as [-> _].
      exact Hno.
  - destruct Hst as (H3 & Hclue & Hno).
    split; [lia |].
    split; [discriminate |]. split; [auto |]. split.
    + split; [discriminate |]. intros HE. exfalso.
      apply Exists_exists in HE as (gs & Hin & Hh).
      rewrite Forall_forall in Hno. exact (Hno gs Hin Hh).
    + intros earlier gs E. rewrite E in Hno. now apply Forall_app in Hno.
Qed.

(** X10: throughout a session the clues shown are the first
    (number of guesses + 1) while the game is on, and all three once it is
    over; at least one clue is always shown. *)
Theorem visibleClues_play (clicks : list string) :
  let s := play initial clicks in
  visibleClues s
  = (if is_playing s then take (S (length (guesses s))) clues else clues)
  /\ (1 <= length (visibleClues s))%nat.
Proof.
  cbv zeta. pose proof (play_consistent_lemma clicks) as Hc.
  rewrite (visibleClues_consistent _ Hc). split; [reflexivity |].
  destruct Hc as (Hlen & _). destruct (is_playing _); [| cbn; lia].
  rewrite length_take. cbn. lia.
Qed.

Lemma run_ScoreGuess_guesses captured c st :
  guesses (fst (run (ScoreGuess captured c) st)) = (captured ++ [scoreOf c])%list.
Proof.
  unfold run. cbv zeta. fold (scoreOf c).
  destruct (String.eqb _ _); [reflexivity |].
  destruct (3 <=? _); reflexivity.
Qed.

Lemma doubleClick_runs s first second :
  gameState s = playing -> (length (guesses s) < 3)%nat ->
  doubleClick s first second
  = fst (run (ScoreGuess (guesses s) second)
           (fst (run (ScoreGuess (guesses s) first)
                   (setAnimateGuess true
                      (setSelectedColor (Some second)
                         (setAnimateGuess true (setSelectedColor (Some first) s))))))).
Proof.
  intros Hg Hlt. unfold doubleClick. rewrite (handleColorClick_accepted s first Hg Hlt).
  rewrite handleColorClick_accepted by assumption. reflexivity.
Qed.

(** X11: when a second colour is clicked before the first click has been
    scored, both callbacks extend the guesses captured at their click: the
    record ends up with the second guess alone after the guesses held
    before; the first guess is lost. *)
Theorem doubleClick_guesses (s : State) (first second : string) :
  gameState s = playing -> (length (guesses s) < 3)%nat ->
  guesses (doubleClick s first second) = (guesses s ++ [scoreOf second])%list
  /\ length (guesses (doubleClick s first second)) = S (length (guesses s)).
Proof.
  intros Hg Hlt.
  rewrite (doubleClick_runs s first second Hg Hlt), run_ScoreGuess_guesses.
  split; [reflexivity |]. rewrite length_app. cbn. lia.
Qed.

(** X12: in such a double click, when the first colour is the target and
    the second is not, and fewer than two guesses were held, the game
    ends up won although the guess on record for it is the second colour,
    not the target. *)
Theorem doubleClick_won (s : State) (first second : string) :
  gameState s = playing -> (S (length (guesses s)) < 3)%nat ->
  hits first -> ~ hits second ->
  gameState (doubleClick s first second) = won
  /\ last (guesses (doubleClick s first second)) = Some (scoreOf second)
  /\ currentClue (doubleClick s first second) = Z.of_nat (length (guesses s)) + 2.
Proof.
  intros Hg Hroom Hf Hs.
  assert (Hlt : (length (guesses s) < 3)%nat) by lia.
  assert (Hl : length (guesses s ++ [scoreOf second])%list = S (length (guesses s))).
  { rewrite length_app. cbn. lia. }
  rewrite (doubleClick_runs s first second Hg Hlt). unfold run. cbv zeta.
  fold (scoreOf first). fold (scoreOf second).
  apply hits_eqb in Hf. rewrite Hf.
  destruct (String.eqb (toLowerCase second) (toLowerCase targetColor)) eqn:He;
    [apply hits_eqb in He; contradiction |].
  rewrite Hl.
  destruct (Z.leb_spec 3 (Z.of_nat (S (length (guesses s))))) as [Hn | Hn]; [lia |].
  cbn [fst gameState guesses currentClue setCurrentClue setGuesses setGameState
       setCelebrating].
  split; [reflexivity |]. split; [apply last_snoc | lia].
Qed.

(** X13: the target colour itself, in any letter case, is scored at the
    target position and never as close. *)
Theorem hit_not_close (c : string) :
  hits c ->
  position (scoreOf c) = targetPosition /\ isClose (scoreOf c) = false.
Proof.
  intros Hh. unfold scoreOf. cbn [position isClose].
  rewrite (findColorPosition_ci colors c targetColor Hh). fold targetPosition.
  split; [reflexivity |]. unfold isWithinProximity. cbv zeta.
  rewrite !Z.sub_diag. reflexivity.
Qed.

End Rounds_facts.


(** ** The store, further *)

Section Store_more.
Import Platform storageUtils Colordle Instructions Effects.

Variable JSON_parse : string -> option json.
Variable JSON_stringify : json -> string.

(** [JSON.parse] throws on the empty text. *)
Hypothesis JSON_parse_empty : JSON_parse "" = None.

Local Abbreviation load := (loadGameState JSON_parse).
Local Abbreviation save := (saveGameState JSON_stringify).
Local Abbreviation hasSeen := (hasSeenInstructionsToday JSON_parse).
Local Abbreviation mark := (markInstructionsAsSeen JSON_parse JSON_stringify).

Lemma storage_of_no_window w : window w = None -> storage_of w = ∅.
Proof. unfold storage_of. now intros ->. Qed.

Lemma load_nothing w :
  storage_of w !! STORAGE_KEY = None \/ storage_of w !! STORAGE_KEY = Some "" ->
  load w = (None, w).
Proof.
  intros H. unfold loadGameState.
  destruct (window w) as [m |] eqn:Hw; [| reflexivity].
  unfold try_catch, bind, getItem.
  destruct H as [-> | ->]; reflexivity.
Qed.

Lemma load_current w m stored props :
  window w = Some m -> m !! STORAGE_KEY = Some stored ->
  JSON_parse stored = Some (JObj props) ->
  obj_get "date" props = Some (JStr (getTodayString w)) ->
  load w = (Some (JObj props), w).
Proof.
  intros Hw Hm Hp Hd.
  rewrite (load_parsed JSON_parse JSON_parse_empty w m stored _ Hw Hm Hp).
  cbn [get_prop]. rewrite Hd. cbn [strict_ne_string].
  now rewrite String.eqb_refl.
Qed.

Lemma save_stored w m state :
  window w = Some m ->
  accepts w STORAGE_KEY
    (JSON_stringify (JObj (obj_set "date" (JStr (getTodayString w)) state))) = true ->
  save state w
  = with_storage w
      (<[STORAGE_KEY :=
           JSON_stringify (JObj (obj_set "date" (JStr (getTodayString w)) state))]> m).
Proof.
  intros Hw Hacc. unfold saveGameState, try_catch, setItem.
  rewrite Hw, (storage_of_window _ _ Hw), Hacc. reflexivity.
Qed.

Lemma save_refused_eq w m state :
  window w = Some m ->
  accepts w STORAGE_KEY
    (JSON_stringify (JObj (obj_set "date" (JStr (getTodayString w)) state))) = false ->
  save state w = console_error "Error saving game state:" w.
Proof.
  intros Hw Hacc. unfold saveGameState, try_catch, setItem.
  rewrite Hw, Hacc. reflexivity.
Qed.

Lemma obj_get_set_other k k' v o :
  k' <> k -> obj_get k' (obj_set k v o) = obj_get k' o.
Proof.
  intros Hne. induction o as [| [k0 v0] o IH]; cbn.
  - destruct (String.eqb_spec k' k); [contradiction | reflexivity].
  - destruct (String.eqb_spec k k0) as [-> | Hk]; cbn.
    + destruct (String.eqb_spec k' k0); [contradiction | reflexivity].
    + destruct (String.eqb_spec k' k0); [reflexivity | exact IH].
Qed.

(** X14: with nothing under the key, or the empty text, load reports
    absent and leaves the world as it is, and the instructions count as
    not yet seen. *)
Theorem load_nothing_stored w :
  storage_of w !! STORAGE_KEY = None \/ storage_of w !! STORAGE_KEY = Some "" ->
  load w = (None, w) /\ fst (hasSeen w) = JBool false.
Proof.
  intros H. pose proof (load_nothing w H) as Hl. split; [exact Hl |].
  unfold hasSeenInstructionsToday. rewrite Hl. reflexivity.
Qed.

(** X15: a record that parses to an object dated today is returned as
    parsed and the world is left as it is, so that loading again gives the
    same. *)
Theorem load_current_record w m stored props :
  window w = Some m -> m !! STORAGE_KEY = Some stored ->
  JSON_parse stored = Some (JObj props) ->
  obj_get "date" props = Some (JStr (getTodayString w)) ->
  load w = (Some (JObj props), w)
  /\ load (snd (load w)) = load w.
Proof.
  intros Hw Hm Hp Hd. pose proof (load_current w m stored props Hw Hm Hp Hd) as Hl.
  rewrite Hl. cbn [snd]. split; [reflexivity | exact Hl].
Qed.

(** X16: a record that parses to null makes load print the error and
    report absent; the record stays in the storage. *)
Theorem load_null_record w m stored :
  window w = Some m -> m !! STORAGE_KEY = Some stored ->
  JSON_parse stored = Some JNull ->
  load w = (None, console_error "Error loading game state:" w)
  /\ storage_of (snd (load w)) !! STORAGE_KEY = Some stored.
Proof.
  intros Hw Hm Hp.
  rewrite (load_parsed JSON_parse JSON_parse_empty w m stored JNull Hw Hm Hp).
  split; [reflexivity |]. cbn [snd get_prop]. unfold storage_of. cbn. now rewrite Hw.
Qed.

(** X17: a record that parses to a number, a string, a boolean or an
    array has no date: load removes it from the storage and reports
    absent, without printing anything. *)
Theorem load_scalar_record w m stored v :
  window w = Some m -> m !! STORAGE_KEY = Some stored ->
  JSON_parse stored = Some v ->
  v <> JNull -> (forall props, v <> JObj props) ->
  load w = (None, with_storage w (delete STORAGE_KEY m))
  /\ console (snd (load w)) = console w.
Proof.
  intros Hw Hm Hp Hnull Hobj.
  rewrite (load_parsed JSON_parse JSON_parse_empty w m stored v Hw Hm Hp).
  destruct v; try contradiction; try (now split).
  now destruct (Hobj props).
Qed.

(** What [load] can do to the world: nothing, print an error, or
    remove its own key. *)
Lemma load_effect w :
  (exists r, load w = (r, w))
  \/ load w = (None, console_error "Error loading game state:" w)
  \/ (exists m, window w = Some m
                /\ load w = (None, with_storage w (delete STORAGE_KEY m))).
Proof.
  unfold loadGameState.
  destruct (window w) as [m |] eqn:Hw; [| left; eexists; reflexivity].
  unfold try_catch, bind, getItem. rewrite (storage_of_window _ _ Hw).
  destruct (m !! STORAGE_KEY) as [[| c stored] |]; try (left; eexists; reflexivity).
  unfold parse. destruct (JSON_parse (String c stored)) as [v |];
    [| right; left; reflexivity].
  unfold ret, lift. destruct (get_prop v "date") as [date | e];
    [| right; left; reflexivity].
  destruct (strict_ne_string date (getTodayString w)); [| left; eexists; reflexivity].
  right. right. exists m. split; [reflexivity |].
  unfold removeItem. rewrite (storage_of_window _ _ Hw). reflexivity.
Qed.

Lemma load_frame w :
  now (snd (load w)) = now w
  /\ accepts (snd (load w)) = accepts w
  /\ (forall m, window w = Some m ->
        window (snd (load w)) = Some m
        \/ window (snd (load w)) = Some (delete STORAGE_KEY m))
  /\ (window w = None -> window (snd (load w)) = None).
Proof.
  destruct (load_effect w) as [(r & ->) | [-> | (m & Hw & ->)]]; cbn [snd].
  - repeat split; auto.
  - repeat split; auto.
  - repeat split; auto.
    + intros m' Hm'. right. cbn. congruence.
    + congruence.
Qed.

(** The result of [load] does not depend on what the console holds. *)
Lemma load_console msg w : fst (load (console_error msg w)) = fst (load w).
Proof.
  unfold loadGameState. cbn [window console_error].
  destruct (window w) as [m |] eqn:Hw; [| reflexivity].
  unfold try_catch, bind, getItem, storage_of. cbn [window console_error].
  rewrite Hw. cbn [default from_option id].
  destruct (m !! STORAGE_KEY) as [[| c stored] |]; try reflexivity.
  unfold parse. destruct (JSON_parse (String c stored)) as [v |]; [| reflexivity].
  unfold ret, lift. destruct (get_prop v "date") as [date | e]; [| reflexivity].
  unfold getTodayString. cbn [now console_error].
  destruct (strict_ne_string date (split_head "T" (now w))); reflexivity.
Qed.

(** X18: when the storage refuses the write, save does not throw: it
    prints the error, leaves the storage as it was, and a later load
    reports what it would have reported before. *)
Theorem save_refused w m state :
  window w = Some m ->
  accepts w STORAGE_KEY
    (JSON_stringify (JObj (obj_set "date" (JStr (getTodayString w)) state))) = false ->
  save state w = console_error "Error saving game state:" w
  /\ storage_of (save state w) = m
  /\ fst (load (save state w)) = fst (load w).
Proof.
  intros Hw Hacc. rewrite (save_refused_eq w m state Hw Hacc).
  split; [reflexivity |]. split; [| apply load_console].
  unfold storage_of. cbn [window console_error]. now rewrite Hw.
Qed.

(** [save] then [load]: the general form. *)
Lemma save_then_load w m state t :
  let record := JObj (obj_set "date" (JStr (getTodayString w)) state) in
  window w = Some m ->
  accepts w STORAGE_KEY (JSON_stringify record) = true ->
  JSON_parse (JSON_stringify record) = Some record ->
  load (at_time t (save state w))
  = if String.eqb (getTodayString w) (split_head "T" t)
    then (Some record, at_time t (save state w))
    else (None, with_storage (at_time t (save state w))
                  (delete STORAGE_KEY (<[STORAGE_KEY := JSON_stringify record]> m))).
Proof.
  intros record Hw Hacc Hrt.
  rewrite (save_stored w m state Hw Hacc). fold record.
  rewrite (load_parsed JSON_parse JSON_parse_empty _
             (<[STORAGE_KEY := JSON_stringify record]> m)
             (JSON_stringify record) record);
    [| reflexivity | apply lookup_insert_eq | exact Hrt].
  unfold record at 1. cbn [get_prop]. rewrite obj_get_set. cbn [strict_ne_string].
  change (getTodayString (at_time t _)) with (split_head "T" t).
  destruct (String.eqb (getTodayString w) (split_head "T" t)); reflexivity.
Qed.

(** X19: of two saves on the same day the second replaces the first:
    the storage holds the second record alone under the key and load
    returns it. *)
Theorem save_last_write_wins w m first second :
  let today := getTodayString w in
  let record1 := JObj (obj_set "date" (JStr today) first) in
  let record2 := JObj (obj_set "date" (JStr today) second) in
  window w = Some m ->
  accepts w STORAGE_KEY (JSON_stringify record1) = true ->
  accepts w STORAGE_KEY (JSON_stringify record2) = true ->
  JSON_parse (JSON_stringify record2) = Some record2 ->
  fst (load (save second (save first w))) = Some record2
  /\ storage_of (save second (save first w))
     = <[STORAGE_KEY := JSON_stringify record2]> m.
Proof.
  intros today record1 record2 Hw Hacc1 Hacc2 Hrt.
  rewrite (save_stored w m first Hw Hacc1). fold today. fold record1.
  set (m1 := <[STORAGE_KEY := JSON_stringify record1]> m).
  rewrite (save_stored (with_storage w m1) m1 second eq_refl Hacc2).
  change (getTodayString (with_storage w m1)) with today. fold record2.
  split.
  - rewrite (load_parsed JSON_parse JSON_parse_empty _
               (<[STORAGE_KEY := JSON_stringify record2]> m1)
               (JSON_stringify record2) record2);
      [| reflexivity | apply lookup_insert_eq | exact Hrt].
    unfold record2 at 1. cbn [get_prop]. rewrite obj_get_set. cbn [strict_ne_string].
    change (getTodayString _) with today. now rewrite String.eqb_refl.
  - unfold storage_of. cbn [window with_storage default from_option id].
    apply insert_insert_eq.
Qed.

(** X20: a state saved on one day and loaded when the clock shows
    another date is reported absent, and the load removes it from the
    storage. *)
Theorem save_then_next_day w m state t :
  let record := JObj (obj_set "date" (JStr (getTodayString w)) state) in
  window w = Some m ->
  accepts w STORAGE_KEY (JSON_stringify record) = true ->
  JSON_parse (JSON_stringify record) = Some record ->
  split_head "T" t <> getTodayString w ->
  fst (load (at_time t (save state w))) = None
  /\ storage_of (snd (load (at_time t (save state w)))) !! STORAGE_KEY = None.
Proof.
  intros record Hw Hacc Hrt Hday.
  rewrite (save_then_load w m state t Hw Hacc Hrt). fold record.
  destruct (String.eqb_spec (getTodayString w) (split_head "T" t)) as [E | _];
    [congruence |].
  split; [reflexivity |]. cbn [snd]. unfold storage_of. cbn [window with_storage].
  apply lookup_delete_eq.
Qed.

(** X21: clearGameState removes the record; load then reports absent
    without touching the world; clearing twice is clearing once. *)
Theorem clear_then_load w m :
  window w = Some m ->
  clearGameState w = with_storage w (delete STORAGE_KEY m)
  /\ load (clearGameState w) = (None, clearGameState w)
  /\ clearGameState (clearGameState w) = clearGameState w.
Proof.
  intros Hw.
  assert (Hc : clearGameState w = with_storage w (delete STORAGE_KEY m)).
  { unfold clearGameState, removeItem. rewrite Hw, (storage_of_window _ _ Hw). reflexivity. }
  rewrite Hc. split; [reflexivity |]. split.
  - apply load_nothing. left. unfold storage_of. cbn. apply lookup_delete_eq.
  - unfold clearGameState, removeItem, storage_of. cbn [window with_storage snd default from_option id].
    unfold with_storage. cbn. now rewrite delete_delete_eq.
Qed.

Lemma load_other_keys w k :
  k <> STORAGE_KEY -> storage_of (snd (load w)) !! k = storage_of w !! k.
Proof.
  intros Hk.
  destruct (load_effect w) as [(r & ->) | [-> | (m & Hw & ->)]]; cbn [snd];
    try reflexivity.
  rewrite (storage_of_window w m Hw). unfold storage_of. cbn.
  now apply lookup_delete_ne.
Qed.

Lemma save_other_keys w state k :
  k <> STORAGE_KEY -> storage_of (save state w) !! k = storage_of w !! k.
Proof.
  intros Hk. unfold saveGameState.
  destruct (window w) as [m |] eqn:Hw; [| reflexivity].
  unfold try_catch, setItem. destruct (accepts w _ _); cbn [snd]; [| reflexivity].
  rewrite (storage_of_window w m Hw). unfold storage_of. cbn.
  now apply lookup_insert_ne.
Qed.

(** X22: load, save, clearGameState and markInstructionsAsSeen leave
    every other key of the storage as it is. *)
Theorem other_keys_untouched w state k :
  k <> STORAGE_KEY ->
  storage_of (snd (load w)) !! k = storage_of w !! k
  /\ storage_of (save state w) !! k = storage_of w !! k
  /\ storage_of (clearGameState w) !! k = storage_of w !! k
  /\ storage_of (mark w) !! k = storage_of w !! k.
Proof.
  intros Hk. split; [now apply load_other_keys |].
  split; [now apply save_other_keys |]. split.
  - unfold clearGameState. destruct (window w) as [m |] eqn:Hw; [| reflexivity].
    unfold removeItem. cbn [snd]. rewrite (storage_of_window w m Hw).
    unfold storage_of. cbn. now apply lookup_delete_ne.
  - unfold markInstructionsAsSeen.
    pose proof (load_other_keys w k Hk) as Hl.
    destruct (load w) as [state0 w'] eqn:El. cbn [snd] in Hl.
    destruct state0 as [value |]; [destruct (truthy value) |];
      rewrite save_other_keys by exact Hk; exact Hl.
Qed.

Lemma save_load_same w m state :
  let record := JObj (obj_set "date" (JStr (getTodayString w)) state) in
  window w = Some m ->
  accepts w STORAGE_KEY (JSON_stringify record) = true ->
  JSON_parse (JSON_stringify record) = Some record ->
  load (save state w) = (Some record, save state w)
  /\ storage_of (save state w) !! STORAGE_KEY = Some (JSON_stringify record).
Proof.
  intros record Hw Hacc Hrt.
  rewrite (save_stored w m state Hw Hacc). fold record. split.
  - rewrite (load_parsed JSON_parse JSON_parse_empty _
               (<[STORAGE_KEY := JSON_stringify record]> m)
               (JSON_stringify record) record);
      [| reflexivity | apply lookup_insert_eq | exact Hrt].
    unfold record at 1. cbn [get_prop]. rewrite obj_get_set. cbn [strict_ne_string].
    change (getTodayString (with_storage w _)) with (getTodayString w).
    now rewrite String.eqb_refl.
  - unfold storage_of. cbn [window with_storage default from_option id].
    apply lookup_insert_eq.
Qed.

(** The world [load] leaves behind is a browser with the same clock and
    the same quota. *)
Lemma load_leaves_browser w m :
  window w = Some m ->
  exists m', window (snd (load w)) = Some m'
             /\ accepts (snd (load w)) = accepts w
             /\ getTodayString (snd (load w)) = getTodayString w.
Proof.
  intros Hw. destruct (load_frame w) as (Hnow & Hac & Hwin & _).
  unfold getTodayString. rewrite Hnow.
  destruct (Hwin m Hw) as [H | H]; eauto.
Qed.

Lemma obj_set_same k v o : obj_get k o = Some v -> obj_set k v o = o.
Proof.
  induction o as [| [k' v'] o IH]; cbn; [discriminate |].
  destruct (String.eqb_spec k k') as [-> | Hk].
  - now intros [= ->].
  - intros H. now rewrite IH.
Qed.

Lemma hasSeen_of_load w :
  fst (hasSeen w)
  = match fst (load w) with
    | Some value =>
        match member value "hasSeenInstructions" with
        | None | Some JNull => JBool false
        | Some seen => seen
        end
    | None => JBool false
    end
  /\ snd (hasSeen w) = snd (load w).
Proof. unfold hasSeenInstructionsToday. destruct (load w); split; reflexivity. Qed.

Lemma hasSeen_not_null w : fst (hasSeen w) <> JNull.
Proof.
  rewrite (proj1 (hasSeen_of_load w)).
  destruct (fst (load w)) as [value |]; [| discriminate].
  destruct (member value "hasSeenInstructions") as [[] |]; discriminate.
Qed.

(** X23: when load reports absent, markInstructionsAsSeen stores the
    minimal state of a first visit (no guesses, clue counter 1, playing,
    instructions seen) dated today; load then returns it and the
    instructions count as seen. *)
Theorem mark_first_visit w m :
  let record := JObj (firstVisit ++ [("date", JStr (getTodayString w))])%list in
  window w = Some m ->
  fst (load w) = None ->
  accepts w STORAGE_KEY (JSON_stringify record) = true ->
  JSON_parse (JSON_stringify record) = Some record ->
  storage_of (mark w) !! STORAGE_KEY = Some (JSON_stringify record)
  /\ fst (load (mark w)) = Some record
  /\ fst (hasSeen (mark w)) = JBool true.
Proof.
  intros record Hw Hnone Hacc Hrt.
  destruct (load_leaves_browser w m Hw) as (m' & Hw' & Hac & Hday).
  assert (Hm : mark w = save firstVisit (snd (load w))).
  { unfold markInstructionsAsSeen. destruct (load w) as [state0 w'].
    cbn [fst snd] in *. now subst state0. }
  assert (Hrec : JObj (obj_set "date" (JStr (getTodayString (snd (load w)))) firstVisit)
                 = record) by (rewrite Hday; reflexivity).
  destruct (save_load_same (snd (load w)) m' firstVisit Hw') as (Hl & Hs);
    rewrite ?Hrec, ?Hac; auto.
  rewrite Hrec in *. rewrite Hm. split; [exact Hs |]. split; [now rewrite Hl |].
  rewrite (proj1 (hasSeen_of_load _)), Hl. reflexivity.
Qed.

(** X24: on a record dated today, markInstructionsAsSeen stores the same
    record with the flag set: load returns it, the instructions count as
    seen, and every other property is as it was. *)
Theorem mark_keeps_progress w m stored props :
  let record := JObj (obj_set "hasSeenInstructions" (JBool true) props) in
  window w = Some m -> m !! STORAGE_KEY = Some stored ->
  JSON_parse stored = Some (JObj props) ->
  obj_get "date" props = Some (JStr (getTodayString w)) ->
  accepts w STORAGE_KEY (JSON_stringify record) = true ->
  JSON_parse (JSON_stringify record) = Some record ->
  fst (load (mark w)) = Some record
  /\ fst (hasSeen (mark w)) = JBool true
  /\ forall k, k <> "hasSeenInstructions" ->
               member record k = obj_get k props.
Proof.
  intros record Hw Hm Hp Hd Hacc Hrt.
  pose proof (load_current w m stored props Hw Hm Hp Hd) as Hl.
  assert (Hmk : mark w = save (obj_set "hasSeenInstructions" (JBool true) props) w).
  { unfold markInstructionsAsSeen. rewrite Hl. reflexivity. }
  assert (Hrec : JObj (obj_set "date" (JStr (getTodayString w))
                         (obj_set "hasSeenInstructions" (JBool true) props)) = record).
  { unfold record. f_equal. apply obj_set_same.
    rewrite obj_get_set_other by discriminate. exact Hd. }
  destruct (save_load_same w m (obj_set "hasSeenInstructions" (JBool true) props) Hw)
    as (Hl' & _); rewrite ?Hrec; auto.
  rewrite Hrec in Hl'. rewrite Hmk.
  split; [now rewrite Hl' |]. split.
  - rewrite (proj1 (hasSeen_of_load _)), Hl'. cbn [fst member record].
    unfold record. cbn [member]. now rewrite obj_get_set.
  - intros k Hk. unfold record. cbn [member]. now apply obj_get_set_other.
Qed.

(** X25: once loaded, the saving effect stores the guesses, the clue
    counter and the status together with the instructions flag as it
    stood, so that the flag reads the same afterwards; before the state is
    loaded the effect does nothing. *)
Theorem saveEffect_keeps_flag w m s :
  let seen := fst (hasSeen w) in
  let record :=
    JObj (effectObject s seen ++ [("date", JStr (getTodayString w))])%list in
  window w = Some m ->
  accepts w STORAGE_KEY (JSON_stringify record) = true ->
  JSON_parse (JSON_stringify record) = Some record ->
  fst (load (saveEffect JSON_parse JSON_stringify true s w)) = Some record
  /\ fst (hasSeen (saveEffect JSON_parse JSON_stringify true s w)) = seen
  /\ saveEffect JSON_parse JSON_stringify false s w = w.
Proof.
  intros seen record Hw Hacc Hrt.
  destruct (load_leaves_browser w m Hw) as (m' & Hw' & Hac & Hday).
  destruct (hasSeen_of_load w) as (_ & Hsnd).
  assert (He : saveEffect JSON_parse JSON_stringify true s w
               = save (effectObject s seen) (snd (load w))).
  { unfold saveEffect. cbn [negb]. unfold seen. rewrite <- Hsnd.
    destruct (hasSeen w). reflexivity. }
  assert (Hrec : JObj (obj_set "date" (JStr (getTodayString (snd (load w))))
                         (effectObject s seen)) = record)
    by (rewrite Hday; reflexivity).
  destruct (save_load_same (snd (load w)) m' (effectObject s seen) Hw') as (Hl & _);
    rewrite ?Hrec, ?Hac; auto.
  rewrite Hrec in Hl. rewrite He.
  split; [now rewrite Hl |]. split; [| reflexivity].
  rewrite (proj1 (hasSeen_of_load _)), Hl. cbn [fst]. unfold record. cbn [member].
  change (obj_get "hasSeenInstructions"
            (effectObject s seen ++ [("date", JStr (getTodayString w))])%list)
    with (Some seen).
  pose proof (hasSeen_not_null w) as Hnn. fold seen in Hnn.
  destruct seen; congruence.
Qed.


(** X26: where there is no window, none of the storage functions does
    anything: load reports absent, the instructions count as not seen, and
    save, clear, mark and the saving effect leave the world as it is. *)
Theorem server_side_noop w state s :
  window w = None ->
  load w = (None, w)
  /\ hasSeen w = (JBool false, w)
  /\ save state w = w
  /\ clearGameState w = w
  /\ mark w = w
  /\ saveEffect JSON_parse JSON_stringify true s w = w.
Proof.
  intros Hw.
  assert (Hl : load w = (None, w)) by (unfold loadGameState; now rewrite Hw).
  assert (Hs : forall st, save st w = w) by (intros st; unfold saveGameState; now rewrite Hw).
  split; [exact Hl |].
  split; [unfold hasSeenInstructionsToday; now rewrite Hl |].
  split; [apply Hs |].
  split; [unfold clearGameState; now rewrite Hw |].
  split; [unfold markInstructionsAsSeen; rewrite Hl; apply Hs |].
  unfold saveEffect, hasSeenInstructionsToday. rewrite Hl. cbn [negb]. apply Hs.
Qed.

End Store_more.

(** ** The further properties on the sample worlds *)

Section Scenes_facts.
Import JsNumber JsString colorUtils Nearest Platform storageUtils Colordle Palette Sample.
Import Rounds Instructions Effects Channels Scenes.

Lemma hexToRgb_hslToHex_witness :
  hexToRgb (hslToHex (num 0) (num 100) (num 50)) = {| r := 255; g := 0; b := 0 |}.
Proof.
  apply (hexToRgb_hslToHex (num 0) (num 100) (num 50) 255 0 0);
    [vm_compute; reflexivity | lia | lia | lia].
Defined.

Lemma findColorPosition_cellColor_witness :
  generateColorGrid !! Z.to_nat (1 * COLS + 18) = Some (cellColor 1 18)
  /\ findColorPosition generateColorGrid (cellColor 1 18)
     = {| row := 1; col := 18 |}.
Proof.
  apply (findColorPosition_cellColor 1 18); unfold ROWS, COLS; lia.
Defined.

Lemma findColorPosition_in_grid_witness :
  0 <= row (findColorPosition small_grid "zz")
  /\ 0 <= col (findColorPosition small_grid "zz") < COLS
  /\ row (findColorPosition small_grid "zz") * COLS
     + col (findColorPosition small_grid "zz") < Z.of_nat (length small_grid)
  /\ is_Some (small_grid !! Z.to_nat (row (findColorPosition small_grid "zz") * COLS
                                     + col (findColorPosition small_grid "zz"))).
Proof.
  apply (findColorPosition_in_grid small_grid "zz"). discriminate.
Defined.

Lemma hexToRgb_sharp_witness : hexToRgb "#102030" = hexToRgb "102030".
Proof. apply (hexToRgb_sharp "102030"). reflexivity. Defined.

Lemma findColorPosition_case_witness :
  findColorPosition small_grid "#ffffff" = findColorPosition small_grid "#FFFFFF".
Proof.
  apply (findColorPosition_case small_grid "#ffffff" "#FFFFFF"). reflexivity.
Defined.

Lemma doubleClick_guesses_witness :
  guesses (doubleClick initial "#FF0000" "#00FF00") = ([] ++ [scoreOf "#00FF00"])%list
  /\ length (guesses (doubleClick initial "#FF0000" "#00FF00")) = 1%nat.
Proof.
  apply (doubleClick_guesses initial "#FF0000" "#00FF00"); [reflexivity | cbn; lia].
Defined.

Lemma doubleClick_won_witness :
  gameState (doubleClick initial targetColor "#FF0000") = won
  /\ last (guesses (doubleClick initial targetColor "#FF0000")) = Some (scoreOf "#FF0000")
  /\ currentClue (doubleClick initial targetColor "#FF0000") = 0 + 2.
Proof.
  apply (doubleClick_won initial targetColor "#FF0000").
  - reflexivity.
  - cbn. lia.
  - reflexivity.
  - intros H. vm_compute in H. discriminate.
Defined.

Lemma hit_not_close_witness :
  position (scoreOf "#ffb3e0") = targetPosition /\ isClose (scoreOf "#ffb3e0") = false.
Proof.
  apply (hit_not_close "#ffb3e0"). reflexivity.
Defined.

Lemma load_nothing_stored_witness :
  loadGameState Json.parse empty_world = (None, empty_world)
  /\ fst (hasSeenInstructionsToday Json.parse empty_world) = JBool false.
Proof.
  apply (load_nothing_stored Json.parse empty_world).
  right. apply lookup_singleton_eq.
Defined.

Lemma unseen_text_parses : Json.parse unseen_text = Some (JObj unseen_props).
Proof. vm_compute. reflexivity. Qed.

Lemma load_current_record_witness :
  loadGameState Json.parse unseen_world = (Some (JObj unseen_props), unseen_world)
  /\ loadGameState Json.parse (snd (loadGameState Json.parse unseen_world))
     = loadGameState Json.parse unseen_world.
Proof.
  apply (load_current_record Json.parse eq_refl unseen_world
           {[ STORAGE_KEY := unseen_text ]} unseen_text unseen_props).
  - reflexivity.
  - apply lookup_singleton_eq.
  - exact unseen_text_parses.
  - reflexivity.
Defined.

Lemma load_null_record_witness :
  loadGameState Json.parse null_world
  = (None, console_error "Error loading game state:" null_world)
  /\ storage_of (snd (loadGameState Json.parse null_world)) !! STORAGE_KEY = Some "null".
Proof.
  apply (load_null_record Json.parse eq_refl null_world {[ STORAGE_KEY := "null" ]} "null").
  - reflexivity.
  - apply lookup_singleton_eq.
  - reflexivity.
Defined.

Lemma load_scalar_record_witness :
  loadGameState Json.parse number_world
  = (None, with_storage number_world (delete STORAGE_KEY {[ STORAGE_KEY := "7" ]}))
  /\ console (snd (loadGameState Json.parse number_world)) = console number_world.
Proof.
  apply (load_scalar_record Json.parse eq_refl number_world
           {[ STORAGE_KEY := "7" ]} "7" (JNum 7)).
  - reflexivity.
  - apply lookup_singleton_eq.
  - reflexivity.
  - discriminate.
  - discriminate.
Defined.

Lemma save_refused_witness :
  saveGameState Json.stringify saved full_world
  = console_error "Error saving game state:" full_world
  /\ storage_of (saveGameState Json.stringify saved full_world) = ∅
  /\ fst (loadGameState Json.parse (saveGameState Json.stringify saved full_world))
     = fst (loadGameState Json.parse full_world).
Proof.
  apply (save_refused Json.parse Json.stringify full_world ∅ saved); reflexivity.
Defined.

Lemma save_last_write_wins_witness :
  fst (loadGameState Json.parse
         (saveGameState Json.stringify saved
            (saveGameState Json.stringify firstVisit fresh_world)))
  = Some (JObj (obj_set "date" (JStr (getTodayString fresh_world)) saved))
  /\ storage_of (saveGameState Json.stringify saved
                   (saveGameState Json.stringify firstVisit fresh_world))
     = <[STORAGE_KEY :=
           Json.stringify (JObj (obj_set "date" (JStr (getTodayString fresh_world)) saved))]> ∅.
Proof.
  apply (save_last_write_wins Json.parse Json.stringify eq_refl fresh_world ∅ firstVisit saved).
  - reflexivity.
  - reflexivity.
  - reflexivity.
  - vm_compute. reflexivity.
Defined.

Lemma save_then_next_day_witness :
  fst (loadGameState Json.parse
         (at_time midnight (saveGameState Json.stringify saved fresh_world))) = None
  /\ storage_of (snd (loadGameState Json.parse
                        (at_time midnight (saveGameState Json.stringify saved fresh_world))))
     !! STORAGE_KEY = None.
Proof.
  apply (save_then_next_day Json.parse Json.stringify eq_refl fresh_world ∅ saved midnight).
  - reflexivity.
  - reflexivity.
  - vm_compute. reflexivity.
  - vm_compute. discriminate.
Defined.

Lemma clear_then_load_witness :
  clearGameState unseen_world
  = with_storage unseen_world (delete STORAGE_KEY {[ STORAGE_KEY := unseen_text ]})
  /\ loadGameState Json.parse (clearGameState unseen_world)
     = (None, clearGameState unseen_world)
  /\ clearGameState (clearGameState unseen_world) = clearGameState unseen_world.
Proof.
  apply (clear_then_load Json.parse unseen_world {[ STORAGE_KEY := unseen_text ]}).
  reflexivity.
Defined.

Lemma other_keys_untouched_witness :
  storage_of (snd (loadGameState Json.parse stale_world)) !! "theme"
  = storage_of stale_world !! "theme"
  /\ storage_of (saveGameState Json.stringify saved stale_world) !! "theme"
     = storage_of stale_world !! "theme"
  /\ storage_of (clearGameState stale_world) !! "theme" = storage_of stale_world !! "theme"
  /\ storage_of (markInstructionsAsSeen Json.parse Json.stringify stale_world) !! "theme"
     = storage_of stale_world !! "theme".
Proof.
  apply (other_keys_untouched Json.parse Json.stringify stale_world saved "theme").
  discriminate.
Defined.

Lemma mark_first_visit_witness :
  storage_of (markInstructionsAsSeen Json.parse Json.stringify fresh_world) !! STORAGE_KEY
  = Some (Json.stringify
            (JObj (firstVisit ++ [("date", JStr (getTodayString fresh_world))])%list))
  /\ fst (loadGameState Json.parse
            (markInstructionsAsSeen Json.parse Json.stringify fresh_world))
     = Some (JObj (firstVisit ++ [("date", JStr (getTodayString fresh_world))])%list)
  /\ fst (hasSeenInstructionsToday Json.parse
            (markInstructionsAsSeen Json.parse Json.stringify fresh_world))
     = JBool true.
Proof.
  apply (mark_first_visit Json.parse Json.stringify eq_refl fresh_world ∅).
  - reflexivity.
  - reflexivity.
  - reflexivity.
  - vm_compute. reflexivity.
Defined.

Lemma mark_keeps_progress_witness :
  fst (loadGameState Json.parse
         (markInstructionsAsSeen Json.parse Json.stringify unseen_world))
  = Some (JObj (obj_set "hasSeenInstructions" (JBool true) unseen_props))
  /\ fst (hasSeenInstructionsToday Json.parse
            (markInstructionsAsSeen Json.parse Json.stringify unseen_world))
     = JBool true
  /\ forall k, k <> "hasSeenInstructions" ->
               member (JObj (obj_set "hasSeenInstructions" (JBool true) unseen_props)) k
               = obj_get k unseen_props.
Proof.
  apply (mark_keeps_progress Json.parse Json.stringify eq_refl unseen_world
           {[ STORAGE_KEY := unseen_text ]} unseen_text unseen_props).
  - reflexivity.
  - apply lookup_singleton_eq.
  - exact unseen_text_parses.
  - reflexivity.
  - reflexivity.
  - vm_compute. reflexivity.
Defined.

Lemma saveEffect_keeps_flag_witness :
  fst (loadGameState Json.parse
         (saveEffect Json.parse Json.stringify true initial unseen_world))
  = Some (JObj (effectObject initial
                  (fst (hasSeenInstructionsToday Json.parse unseen_world))
                ++ [("date", JStr (getTodayString unseen_world))])%list)
  /\ fst (hasSeenInstructionsToday Json.parse
            (saveEffect Json.parse Json.stringify true initial unseen_world))
     = fst (hasSeenInstructionsToday Json.parse unseen_world)
  /\ saveEffect Json.parse Json.stringify false initial unseen_world = unseen_world.
Proof.
  apply (saveEffect_keeps_flag Json.parse Json.stringify eq_refl unseen_world
           {[ STORAGE_KEY := unseen_text ]} initial).
  - reflexivity.
  - reflexivity.
  - vm_compute. reflexivity.
Defined.

Lemma server_side_noop_witness :
  loadGameState Json.parse server = (None, server)
  /\ hasSeenInstructionsToday Json.parse server = (JBool false, server)
  /\ saveGameState Json.stringify saved server = server
  /\ clearGameState server = server
  /\ markInstructionsAsSeen Json.parse Json.stringify server = server
  /\ saveEffect Json.parse Json.stringify true game server = server.
Proof.
  apply (server_side_noop Json.parse Json.stringify server saved game). reflexivity.
Defined.

(** C1: two clicks from the initial state, the second within the 200 ms
    the first one's callback waits.  Both calls pass the guard and start
    their timer, each callback holding the empty list of guesses of its
    click; once both have run, the record holds the second guess alone,
    and the clue counter is 2: the first guess was not kept. *)
Theorem handleColorClick_stale_guesses :
  let first := "#FFE5E5" in
  let second := "#FFEDE5" in
  let s := doubleClick initial first second in
  In first colors /\ In second colors
  /\ snd (handleColorClick initial first) = [(200, ScoreGuess [] first)]
  /\ snd (handleColorClick (fst (handleColorClick initial first)) second)
     = [(200, ScoreGuess [] second)]
  /\ guesses s = [scoreOf second]
  /\ length (guesses s) = 1%nat
  /\ currentClue s = 2
  /\ gameState s = playing.
Proof.
  cbv zeta.
  split; [unfold colors; rewrite generateColorGrid_value; cbn; tauto |].
  split; [unfold colors; rewrite generateColorGrid_value; cbn; tauto |].
  split; [reflexivity |]. split; [reflexivity |].
  rewrite (doubleClick_runs initial "#FFE5E5" "#FFEDE5" eq_refl ltac:(cbn; lia)).
  rewrite run_ScoreGuess_guesses.
  split; [reflexivity |]. split; [reflexivity |].
  unfold run. cbv zeta.
  change (String.eqb (toLowerCase "#FFE5E5") (toLowerCase targetColor)) with false.
  change (String.eqb (toLowerCase "#FFEDE5") (toLowerCase targetColor)) with false.
  cbn [guesses initial app length Z.of_nat Pos.of_succ_nat Z.leb Z.compare Pos.compare
       Pos.compare_cont fst currentClue gameState setCurrentClue setGuesses
       setAnimateGuess setSelectedColor].
  split; reflexivity.
Qed.

End Scenes_facts.
